(** * OpenAI chat-completions parsers (big-AGI, AIX dispatch)

    Shallow embedding of
    [src/modules/aix/server/dispatch/chatGenerate/parsers/openai.parser.ts]:
    the streaming chunk parser [createOpenAIChatCompletionsChunkParser] and
    the non-streaming parser [createOpenAIChatCompletionsParserNS].

    The embedding starts from the decoded event: [JSON.parse] and the Zod
    schemas of [openai.wiretypes] live outside this file, so a parser takes
    the typed object the schema returns.  Every sink call ([pt.xxx(...)]) is
    recorded, in order, in a trace; a [throw] keeps the state mutations and
    the sink calls made before it, as in JavaScript. *)

From Stdlib Require Import ZArith PrimFloat SpecFloat FloatOps.
From stdpp Require Import gmap strings list pretty.

Local Open Scope string_scope.
Local Open Scope list_scope.
Local Open Scope Z_scope.

(** A decimal literal such as [0.3] denotes the nearest double, as it does
    for [JSON.parse]. *)
Set Warnings "-inexact-float".

(** ** JavaScript values *)

(** [s || d] on an optional string: [undefined] and [''] are falsy. *)
Definition strTruthy (o : option string) : option string :=
  match o with
  | Some s => if decide (s = "") then None else Some s
  | None => None
  end.

Definition strOr (o : option string) (d : string) : string :=
  default d (strTruthy o).

(** [n || d] on an optional integer: [undefined] and [0] are falsy. *)
Definition numOr (o : option Z) (d : Z) : Z :=
  match o with
  | Some n => if decide (n = 0) then d else n
  | None => d
  end.

(** ** Wire shapes (the result of the schema's [parse]) *)

(** [delta.content] / [message.content]: the code distinguishes a string,
    [null], [undefined], and anything else (named by its [typeof]). *)
Inductive Content :=
  | ContentUndefined
  | ContentNull
  | ContentString (s : string)
  | ContentOther (typeof : string).

Record DeltaFunction := {
  fn_name : option string;
  fn_arguments : option string;
}.

Record DeltaToolCall := {
  dtc_index : option Z;
  dtc_id : option string;
  dtc_type : option string;
  dtc_function : DeltaFunction;
}.

Record Delta := {
  delta_content : Content;
  delta_tool_calls : option (list DeltaToolCall);
}.

Record ChunkChoice := {
  choice_index : option Z;
  choice_delta : option Delta;
  choice_finish_reason : option string;
}.

Record Usage := {
  prompt_tokens : option Z;
  completion_tokens : option Z;
}.

Record GroqUsage := {
  groq_prompt_tokens : Z;
  groq_completion_tokens : Z;
  groq_completion_time : float;
}.

Record XGroq := { xgroq_usage : option GroqUsage }.

(** Modelled from the spec: the schema of the undocumented [error] object is
    not in the sources; the spec calls it a structured error carrying a
    message ([error:{message:"rate limited"}]).  An object is always truthy,
    so [if (json.error)] holds exactly when the field is present. *)
Record UpstreamError := { error_message : option string }.

(** The spec lists every field but [choices] as optional.  [warning] is
    logged as it is and tested for truthiness, so it is taken to be a string;
    the fields of [x_groq.usage] are numbers: the token counts are integers,
    the completion time is a duration in seconds, a double. *)
Record ChunkResponse := {
  chunk_id : option string;
  chunk_object : option string;
  chunk_model : option string;
  chunk_error : option UpstreamError;
  chunk_warning : option string;
  chunk_usage : option Usage;
  chunk_x_groq : option XGroq;
  chunk_choices : list ChunkChoice;
}.

(** Non-streaming response. *)
Record NSFunction := { nsfn_name : string; nsfn_arguments : string }.

Record NSToolCall := {
  nstc_id : string;
  nstc_type : option string;
  nstc_function : NSFunction;
}.

Record NSMessage := {
  message_content : Content;
  message_tool_calls : option (list NSToolCall);
}.

Record NSChoice := {
  nschoice_index : Z;
  nschoice_message : option NSMessage;
  nschoice_finish_reason : option string;
}.

Record NSUsage := { ns_prompt_tokens : Z; ns_completion_tokens : Z }.

Record Response := {
  response_model : option string;
  response_error : option UpstreamError;
  response_warning : option string;
  response_usage : option NSUsage;
  response_choices : list NSChoice;
}.

(** ** The sink ([IPartTransmitter]) as a trace of calls *)

Inductive IssueSymbol := IssueGeneric.

Inductive ArgsMode := incr_str.

Record Counters := {
  chatIn : option Z;
  chatOut : option Z;
  chatOutRate : option float;
  chatTimeInner : option float;
}.

Inductive SinkCall :=
  | setModelName (model : string)
  | setDialectTerminatingIssue (text : string) (symbol : IssueSymbol)
  | setCounters (c : Counters)
  | appendText (text : string)
  | startFunctionToolCall (id name : string) (mode : ArgsMode) (args : string)
  | appendFunctionToolCallArgsIStr (id : string) (fragment : string)
  | endMessagePart.

Inductive LogEntry :=
  | LogChunkWarning (w : string)
  | LogNSError (e : UpstreamError)
  | LogNSWarning (w : string).

Inductive ParseError :=
  | ExpectedOneCompletion (got : nat)
  | ExpectedCompletionIndex0 (got : Z)
  | MissingContent (finish_reason : option string)
  | UnexpectedDeltaContentType (typeof : string)
  | UnexpectedMessageContentType (typeof : string)
  | UnexpectedToolCallType (type : string)
  | UnexpectedToolCallIdChange (id : string)
  | UnexpectedToolCallNameChange (name : string).

(** ** A monad for the handler bodies

    A computation reads and writes the state captured by the closure, calls
    the sink, and ends normally, by an early [return] of the handler, or by
    a [throw].  State and trace survive all three. *)
Module Handler.

Inductive Outcome (A : Type) :=
  | Normal (a : A)
  | Returned
  | Thrown (e : ParseError).
Arguments Normal {A} a.
Arguments Returned {A}.
Arguments Thrown {A} e.

Definition M (S A : Type) : Type := S → S * list SinkCall * Outcome A.

Definition ret {S A} (a : A) : M S A := λ s, (s, [], Normal a).

Definition bind {S A B} (m : M S A) (f : A → M S B) : M S B :=
  λ s,
    match m s with
    | (s1, t1, Normal a) =>
        match f a s1 with
        | (s2, t2, o) => (s2, t1 ++ t2, o)
        end
    | (s1, t1, Returned) => (s1, t1, Returned)
    | (s1, t1, Thrown e) => (s1, t1, Thrown e)
    end.

Definition get {S} : M S S := λ s, (s, [], Normal s).
Definition modify {S} (f : S → S) : M S unit := λ s, (f s, [], Normal tt).
Definition pt {S} (c : SinkCall) : M S unit := λ s, (s, [c], Normal tt).
Definition throw {S A} (e : ParseError) : M S A := λ s, (s, [], Thrown e).
Definition return_ {S A} : M S A := λ s, (s, [], Returned).

(** [if (c) body] with no [else]. *)
Definition when {S} (c : bool) (body : M S unit) : M S unit :=
  if c then body else ret tt.

(** The handler as a whole: an early [return] is a normal end. *)
Definition call {S} (m : M S unit) : M S unit :=
  λ s,
    match m s with
    | (s1, t1, Returned) => (s1, t1, Normal tt)
    | r => r
    end.

End Handler.
Import Handler.

Declare Scope handler_scope.
Delimit Scope handler_scope with handler.
Notation "x <- m ;; k" := (bind m (λ x, k))
  (at level 100, m at next level, right associativity) : handler_scope.
Notation "m ;; k" := (bind m (λ _, k))
  (at level 100, right associativity) : handler_scope.
Local Open Scope handler_scope.

(** ** Streaming parser state *)

Record ToolCall := {
  tc_id : string;
  tc_name : string;
  tc_arguments : string;
}.

(** [accumulator.tool_calls] is a JavaScript array used sparsely: reading
    [a[i]] yields the stored element or [undefined]; writing [a[i] = v]
    stores it and, when [i] is an array index, raises [length] to at least
    [i + 1].  Other integer keys (negative ones, or beyond 2^32 - 2) are
    plain properties and leave [length] alone. *)
Record Accumulator := {
  content : option string;
  tool_calls : gmap Z ToolCall;
  tool_calls_length : Z;
}.

Definition isArrayIndex (i : Z) : bool := (0 <=? i) && (i <? 2 ^ 32 - 1).

Definition arrayStore (a : Accumulator) (i : Z) (v : ToolCall) : Accumulator :=
  {| content := content a;
     tool_calls := <[i := v]> (tool_calls a);
     tool_calls_length :=
       if isArrayIndex i then Z.max (tool_calls_length a) (i + 1)
       else tool_calls_length a |}.

Record Session := {
  hasBegun : bool;
  hasWarned : bool;
  accumulator : Accumulator;
  (** number of identifiers the id service has handed out so far *)
  idsIssued : nat;
  (** what [console.log] has printed *)
  console : list LogEntry;
}.

Definition freshSession : Session :=
  {| hasBegun := false;
     hasWarned := false;
     accumulator := {| content := None; tool_calls := ∅; tool_calls_length := 0 |};
     idsIssued := 0;
     console := [] |}.

Definition setHasBegun (b : bool) (s : Session) : Session :=
  {| hasBegun := b; hasWarned := hasWarned s; accumulator := accumulator s;
     idsIssued := idsIssued s; console := console s |}.

Definition setHasWarned (b : bool) (s : Session) : Session :=
  {| hasBegun := hasBegun s; hasWarned := b; accumulator := accumulator s;
     idsIssued := idsIssued s; console := console s |}.

Definition setAccumulator (a : Accumulator) (s : Session) : Session :=
  {| hasBegun := hasBegun s; hasWarned := hasWarned s; accumulator := a;
     idsIssued := idsIssued s; console := console s |}.

Definition consoleLog (e : LogEntry) (s : Session) : Session :=
  {| hasBegun := hasBegun s; hasWarned := hasWarned s; accumulator := accumulator s;
     idsIssued := idsIssued s; console := console s ++ [e] |}.

Definition tickIds (s : Session) : Session :=
  {| hasBegun := hasBegun s; hasWarned := hasWarned s; accumulator := accumulator s;
     idsIssued := S (idsIssued s); console := console s |}.

Definition setContent (c : option string) (a : Accumulator) : Accumulator :=
  {| content := c; tool_calls := tool_calls a; tool_calls_length := tool_calls_length a |}.

(** [accumulatedToolCall.function.arguments += fragment] on the element
    stored at [i] (the element is shared with the array, so the array sees
    the update; [length] does not change). *)
Definition appendArguments (i : Z) (fragment : string) (a : Accumulator) : Accumulator :=
  {| content := content a;
     tool_calls :=
       alter (λ tc, {| tc_id := tc_id tc; tc_name := tc_name tc;
                        tc_arguments := tc_arguments tc +:+ fragment |}) i (tool_calls a);
     tool_calls_length := tool_calls_length a |}.

(** A JavaScript number is an IEEE-754 binary64 value, here Rocq's primitive
    [float], whose [+], [*] and [/] round to nearest, ties to even, as
    JavaScript's do.  The token counts are integers and stay in [Z];
    [numberOfZ] is the number that holds one (the nearest double, exact up
    to [2^53]). *)
Definition numberOfZ (z : Z) : float :=
  SF2Prim (binary_normalize prec emax z 0 false).

(** Truthiness of a number: [0], [-0] and [NaN] are falsy. *)
Definition numTruthy (x : float) : bool :=
  negb (PrimFloat.eqb x 0%float || PrimFloat.is_nan x).

(** [Math.round(x)]: [x] itself when it is [NaN], infinite or integral;
    otherwise the integral number nearest to [x], the one towards +infinity
    on a tie, and [-0] for [-0.5 <= x < 0].  A finite double is
    [(-1)^s * m * 2^e], so the rounding is computed exactly on integers. *)
Definition mathRound (x : float) : float :=
  match Prim2SF x with
  | S754_finite s m e =>
      if 0 <=? e then x
      else
        let k := ((if s then Z.neg m else Z.pos m) * 2 + 2 ^ (- e)) / 2 ^ (1 - e) in
        if k =? 0 then (if s then neg_zero else zero) else numberOfZ k
  | _ => x
  end.

(** [(completion_tokens && completion_time)
      ? Math.round((completion_tokens / completion_time) * 100) / 100
      : undefined] *)
Definition groqOutRate (completion_tokens0 : Z) (completion_time : float) : option float :=
  if bool_decide (completion_tokens0 ≠ 0) && numTruthy completion_time
  then Some (mathRound ((numberOfZ completion_tokens0 / completion_time) * 100) / 100)%float
  else None.

Definition groqCounters (u : GroqUsage) : Counters :=
  {| chatIn := Some (groq_prompt_tokens u);
     chatOut := Some (groq_completion_tokens u);
     chatOutRate := groqOutRate (groq_completion_tokens u) (groq_completion_time u);
     chatTimeInner := Some (groq_completion_time u) |}.

Definition usageCounters (prompt : option Z) (completion : Z) : Counters :=
  {| chatIn := Some (numOr prompt (-1));
     chatOut := Some completion;
     chatOutRate := None;
     chatTimeInner := None |}.

(** [json.id === '' && json.object === '' && json.model === ''] *)
Definition isAzureSentinel (json : ChunkResponse) : bool :=
  bool_decide (chunk_id json = Some "" ∧ chunk_object json = Some ""
               ∧ chunk_model json = Some "").

(** [index !== 0 && index !== undefined] *)
Definition badChoiceIndex (index : option Z) : option Z :=
  match index with
  | Some i => if decide (i = 0) then None else Some i
  | None => None
  end.

(** [deltaToolCall.type !== undefined && deltaToolCall.type !== 'function'] *)
Definition badToolCallType (type : option string) : option string :=
  match type with
  | Some t => if decide (t = "function") then None else Some t
  | None => None
  end.

Inductive LoopControl := Continue | Break.

Section Parsers.

(** External collaborators, not in the sources:
    [safeErrorString] (from [~/server/wire]) renders an error as a string
    or [null]; [serverSideId] (from [~/server/api/trpc.nanoid]) returns a
    new identifier for a prefix, the second argument being the number of
    identifiers issued before. *)
Variable safeErrorString : UpstreamError → option string.
Variable serverSideId : string → nat → string.

(** [deltaToolCall.index ?? accumulator.tool_calls.length] *)
Definition resolveIndex (a : Accumulator) (d : DeltaToolCall) : Z :=
  default (tool_calls_length a) (dtc_index d).

(** One iteration of [for (const deltaToolCall of (delta.tool_calls || []))]. *)
Definition toolCallStep (deltaToolCall : DeltaToolCall) : M Session LoopControl :=
  (* validation *)
  match badToolCallType (dtc_type deltaToolCall) return M Session LoopControl with
  | Some t => throw (UnexpectedToolCallType t)
  | None =>
  s <- get ;;
  (* Creation -  Ensure the tool call exists in our accumulated structure *)
  let tcIndex := resolveIndex (accumulator s) deltaToolCall in
  match tool_calls (accumulator s) !! tcIndex with
  | None =>
      id <- match strTruthy (dtc_id deltaToolCall) with
           | Some id => ret id
           | None =>
               modify tickIds ;;
               ret (serverSideId "aix-tool-call-id" (idsIssued s))
           end ;;
      let created :=
        {| tc_id := id;
           tc_name := strOr (fn_name (dtc_function deltaToolCall)) "";
           tc_arguments := strOr (fn_arguments (dtc_function deltaToolCall)) "" |} in
      modify (λ s, setAccumulator (arrayStore (accumulator s) tcIndex created) s) ;;
      pt (startFunctionToolCall (tc_id created) (tc_name created) incr_str
            (tc_arguments created)) ;;
      ret Break
  | Some accumulatedToolCall =>
      (* Validate *)
      match strTruthy (dtc_id deltaToolCall) with
      | Some id =>
          if decide (id = tc_id accumulatedToolCall) then ret tt
          else throw (UnexpectedToolCallIdChange id)
      | None => ret tt
      end ;;
      match strTruthy (fn_name (dtc_function deltaToolCall)) with
      | Some name => throw (UnexpectedToolCallNameChange name)
      | None => ret tt
      end ;;
      (* It's an arguments update - send it *)
      match strTruthy (fn_arguments (dtc_function deltaToolCall)) with
      | Some fragment =>
          modify (λ s, setAccumulator (appendArguments tcIndex fragment (accumulator s)) s) ;;
          pt (appendFunctionToolCallArgsIStr (tc_id accumulatedToolCall) fragment)
      | None => ret tt
      end ;;
      ret Continue
  end
  end.

Fixpoint toolCallsLoop (deltaToolCalls : list DeltaToolCall) : M Session unit :=
  match deltaToolCalls with
  | [] => ret tt
  | deltaToolCall :: rest =>
      ctl <- toolCallStep deltaToolCall ;;
      match ctl with
      | Break => ret tt
      | Continue => toolCallsLoop rest
      end
  end.

(** [delta: Text] *)
Definition deltaText (c : Content) : M Session unit :=
  match c with
  | ContentString text =>
      modify (λ s, setAccumulator
                     (setContent (Some (default "" (strTruthy (content (accumulator s))) +:+ text))
                        (accumulator s)) s) ;;
      pt (appendText text)
  | ContentOther typeof => throw (UnexpectedDeltaContentType typeof)
  | ContentUndefined | ContentNull => ret tt
  end.

(** Body of [for (const { index, delta, finish_reason } of json.choices)]. *)
Definition choiceStep (choice : ChunkChoice) : M Session unit :=
  (* n=1 -> single Choice only *)
  match badChoiceIndex (choice_index choice) with
  | Some i => throw (ExpectedCompletionIndex0 i)
  | None => ret tt
  end ;;
  (* handle missing content *)
  match choice_delta choice with
  | None => throw (MissingContent (choice_finish_reason choice))
  | Some delta =>
      deltaText (delta_content delta) ;;
      toolCallsLoop (default [] (delta_tool_calls delta))
  end.

Fixpoint choicesLoop (choices : list ChunkChoice) : M Session unit :=
  match choices with
  | [] => ret tt
  | choice :: rest => choiceStep choice ;; choicesLoop rest
  end.

(** [-> Model] *)
Definition reportModel (json : ChunkResponse) : M Session unit :=
  s <- get ;;
  match hasBegun s, strTruthy (chunk_model json) with
  | false, Some model =>
      modify (setHasBegun true) ;;
      pt (setModelName model)
  | _, _ => ret tt
  end.

(** [[OpenAI] an upstream error will be handled gracefully] *)
Definition upstreamError (json : ChunkResponse) : M Session unit :=
  match chunk_error json with
  | Some e =>
      pt (setDialectTerminatingIssue (strOr (safeErrorString e) "unknown.") IssueGeneric) ;;
      return_
  | None => ret tt
  end.

(** [[OpenAI] if there's a warning, log it once] *)
Definition warnOnce (json : ChunkResponse) : M Session unit :=
  s <- get ;;
  match strTruthy (chunk_warning json), hasWarned s with
  | Some w, false =>
      modify (setHasWarned true) ;;
      modify (consoleLog (LogChunkWarning w))
  | _, _ => ret tt
  end.

(** [-> Stats] *)
Definition primaryUsage (json : ChunkResponse) : M Session unit :=
  match chunk_usage json with
  | Some usage =>
      match completion_tokens usage with
      | Some completion => pt (setCounters (usageCounters (prompt_tokens usage) completion))
      | None => ret tt
      end ;;
      (* [OpenAI] Expected correct case: the last object has usage, but an
         empty choices array *)
      when (bool_decide (chunk_choices json = [])) return_
  | None => ret tt
  end.

(** [[Groq] -> Stats] *)
Definition groqUsage (json : ChunkResponse) : M Session unit :=
  match chunk_x_groq json ≫= xgroq_usage with
  | Some u => pt (setCounters (groqCounters u))
  | None => ret tt
  end.

(** The function returned by [createOpenAIChatCompletionsChunkParser()],
    applied to the decoded [eventData]; it runs in the state the closure
    captured, which starts as [freshSession]. *)
Definition createOpenAIChatCompletionsChunkParser (json : ChunkResponse) : M Session unit :=
  call (
    reportModel json ;;
    upstreamError json ;;
    warnOnce json ;;
    (* [Azure] 'prompt_annotations' or 'prompt_filter_results' objects *)
    when (isAzureSentinel json) return_ ;;
    primaryUsage json ;;
    groqUsage json ;;
    (* expect: 1 completion, or stop *)
    when (negb (bool_decide (length (chunk_choices json) = 1%nat)))
      (throw (ExpectedOneCompletion (length (chunk_choices json)))) ;;
    choicesLoop (chunk_choices json)).

(** The transport calls the parser once per event, in arrival order, on
    the same closure.  [processChunks] keeps going after a [throw] (the
    closure stays callable); a transport that stops at the first [throw]
    sees the result of the corresponding prefix. *)
Fixpoint processChunks (events : list ChunkResponse) (s : Session)
  : Session * list SinkCall * list (Outcome unit) :=
  match events with
  | [] => (s, [], [])
  | json :: rest =>
      match createOpenAIChatCompletionsChunkParser json s with
      | (s1, t1, o1) =>
          match processChunks rest s1 with
          | (s2, t2, os) => (s2, t1 ++ t2, o1 :: os)
          end
      end
  end.

End Parsers.

(** ** Non-streaming parser *)

(** One iteration of [for (const toolCall of (message.tool_calls || []))]. *)
Definition nsToolCallStep (toolCall : NSToolCall) : M (list LogEntry) unit :=
  (* [Mistral] we had to relax the parser to miss type: 'function' *)
  match badToolCallType (nstc_type toolCall) with
  | Some t => throw (UnexpectedToolCallType t)
  | None => ret tt
  end ;;
  pt (startFunctionToolCall (nstc_id toolCall) (nsfn_name (nstc_function toolCall)) incr_str
        (nsfn_arguments (nstc_function toolCall))) ;;
  pt endMessagePart.

Fixpoint nsToolCallsLoop (toolCalls : list NSToolCall) : M (list LogEntry) unit :=
  match toolCalls with
  | [] => ret tt
  | toolCall :: rest => nsToolCallStep toolCall ;; nsToolCallsLoop rest
  end.

(** Body of [for (const { index, message, finish_reason } of json.choices)]. *)
Definition nsChoiceStep (choice : NSChoice) : M (list LogEntry) unit :=
  (* n=1 -> single Choice only *)
  (if decide (nschoice_index choice = 0) then ret tt
   else throw (ExpectedCompletionIndex0 (nschoice_index choice))) ;;
  (* handle missing content *)
  match nschoice_message choice with
  | None => throw (MissingContent (nschoice_finish_reason choice))
  | Some message =>
      (* message: Text *)
      match message_content message with
      | ContentString text =>
          when (bool_decide (text ≠ "")) (pt (appendText text))
      | ContentOther typeof => throw (UnexpectedMessageContentType typeof)
      | ContentUndefined | ContentNull => ret tt
      end ;;
      (* message: Tool Calls *)
      nsToolCallsLoop (default [] (message_tool_calls message))
  end.

Fixpoint nsChoicesLoop (choices : list NSChoice) : M (list LogEntry) unit :=
  match choices with
  | [] => ret tt
  | choice :: rest => nsChoiceStep choice ;; nsChoicesLoop rest
  end.

(** The function returned by [createOpenAIChatCompletionsParserNS()], applied
    to the decoded [eventData]; its only state is the console. *)
Definition createOpenAIChatCompletionsParserNS (json : Response) : M (list LogEntry) unit :=
  call (
    match response_error json with
    | Some e => modify (λ out, out ++ [LogNSError e])
    | None => ret tt
    end ;;
    match strTruthy (response_warning json) with
    | Some w => modify (λ out, out ++ [LogNSWarning w])
    | None => ret tt
    end ;;
    (* -> Model *)
    match strTruthy (response_model json) with
    | Some model => pt (setModelName model)
    | None => ret tt
    end ;;
    (* -> Stats *)
    match response_usage json with
    | Some usage =>
        pt (setCounters {| chatIn := Some (ns_prompt_tokens usage);
                           chatOut := Some (ns_completion_tokens usage);
                           chatOutRate := None; chatTimeInner := None |})
    | None => ret tt
    end ;;
    (* Assumption/validate: expect 1 completion, or stop *)
    when (negb (bool_decide (length (response_choices json) = 1%nat)))
      (throw (ExpectedOneCompletion (length (response_choices json)))) ;;
    nsChoicesLoop (response_choices json)).

(** ** External collaborators *)

(** Modelled from the spec: [safeErrorString] is imported from
    [~/server/wire], which is not in the sources.  The spec has the
    terminating issue carry the best-effort stringified error message, so
    the model returns the error's message when there is a non-empty one and
    [null] otherwise (the caller then falls back to ['unknown.']). *)
Definition safeErrorString (e : UpstreamError) : option string :=
  strTruthy (error_message e).

(** An identifier service for concrete runs: the prefix and the number of
    identifiers issued before.  The theorems hold for every service. *)
Definition serverSideId (prefix : string) (n : nat) : string :=
  prefix +:+ "_" +:+ pretty n.

(** [needle] occurs in [s]. *)
Definition contains (s needle : string) : Prop :=
  ∃ before after, s = before +:+ needle +:+ after.

(** ** Reading a trace *)

Definition modelNameOf (c : SinkCall) : option string :=
  match c with setModelName m => Some m | _ => None end.

Definition countersOf (c : SinkCall) : option Counters :=
  match c with setCounters k => Some k | _ => None end.

Definition textOf (c : SinkCall) : option string :=
  match c with appendText t => Some t | _ => None end.

Definition argsAppendOf (c : SinkCall) : option (string * string) :=
  match c with appendFunctionToolCallArgsIStr id f => Some (id, f) | _ => None end.

Definition issueOf (c : SinkCall) : option string :=
  match c with setDialectTerminatingIssue t _ => Some t | _ => None end.

Definition isToolCallCall (c : SinkCall) : bool :=
  match c with
  | startFunctionToolCall _ _ _ _ | appendFunctionToolCallArgsIStr _ _ => true
  | _ => false
  end.

Definition isContentCall (c : SinkCall) : bool :=
  match c with
  | appendText _ => true
  | c => isToolCallCall c
  end.

(** ** Vocabulary for the statements *)

(** What a computation may do: [R] relates the state before and after, [Q]
    holds of every sink call made. *)
Definition frames {S A} (R : relation S) (Q : SinkCall → Prop) (m : M S A) : Prop :=
  ∀ s, R s (m s).1.1 ∧ Forall Q (m s).1.2.

(** [keeps f]: the part [f] of the state is left as it was. *)
Definition keeps {S T} (f : S → T) : relation S := λ s s', f s' = f s.

(** The first truthy [model] among the events, if any. *)
Definition firstModelName (events : list ChunkResponse) : option string :=
  head (omap (λ json, strTruthy (chunk_model json)) events).

(** ** Sample events *)

(** An event with the given [model] and [choices] and nothing else. *)
Definition plainChunk (model : option string) (choices : list ChunkChoice) : ChunkResponse :=
  {| chunk_id := None; chunk_object := None; chunk_model := model; chunk_error := None;
     chunk_warning := None; chunk_usage := None; chunk_x_groq := None;
     chunk_choices := choices |}.

(** [{index: 0, delta: {content: text}}] *)
Definition textChoice (text : string) : ChunkChoice :=
  {| choice_index := Some 0;
     choice_delta := Some {| delta_content := ContentString text; delta_tool_calls := None |};
     choice_finish_reason := None |}.

(** [{tool_calls: tcs}] and [{index: 0, delta: {tool_calls: tcs}}] *)
Definition toolCallsDelta (tcs : list DeltaToolCall) : Delta :=
  {| delta_content := ContentUndefined; delta_tool_calls := Some tcs |}.

Definition toolCallsChoice (tcs : list DeltaToolCall) : ChunkChoice :=
  {| choice_index := Some 0;
     choice_delta := Some (toolCallsDelta tcs);
     choice_finish_reason := None |}.

(** [{index, id, function: {name, arguments}}] *)
Definition deltaToolCallOf (index : Z) (id name arguments : option string) : DeltaToolCall :=
  {| dtc_index := Some index; dtc_id := id; dtc_type := None;
     dtc_function := {| fn_name := name; fn_arguments := arguments |} |}.

(** The [Azure] bookkeeping event: [id], [object] and [model] are all [''],
    and there are no choices. *)
Definition azureSentinelChunk : ChunkResponse :=
  {| chunk_id := Some ""; chunk_object := Some ""; chunk_model := Some ""; chunk_error := None;
     chunk_warning := None; chunk_usage := None; chunk_x_groq := None;
     chunk_choices := [] |}.

(** ** Kinds of events *)

(** A data event: no upstream error, not the sentinel, one choice with index
    [0] or none, and a delta. *)
Definition dataChunk (json : ChunkResponse) (choice : ChunkChoice) (delta : Delta) : Prop :=
  chunk_error json = None ∧ isAzureSentinel json = false ∧ chunk_choices json = [choice]
  ∧ badChoiceIndex (choice_index choice) = None ∧ choice_delta choice = Some delta.

(** A text-delta event carrying the fragment [f]. *)
Definition textDeltaChunk (json : ChunkResponse) (f : string) : Prop :=
  ∃ choice delta, dataChunk json choice delta ∧ delta_content delta = ContentString f.

(** The final stats-only event: a usage block and no choices. *)
Definition usageOnlyChunk (json : ChunkResponse) : Prop :=
  is_Some (chunk_usage json) ∧ chunk_choices json = [].

(** What the primary usage block of an event reports, if anything. *)
Definition primaryCounters (json : ChunkResponse) : option Counters :=
  u ← chunk_usage json; usageCounters (prompt_tokens u) <$> completion_tokens u.

(** An event with usage blocks only. *)
Definition statsChunk (usage : option Usage) (groq : option GroqUsage)
    (choices : list ChunkChoice) : ChunkResponse :=
  {| chunk_id := None; chunk_object := None; chunk_model := None; chunk_error := None;
     chunk_warning := None; chunk_usage := usage;
     chunk_x_groq := (λ u, {| xgroq_usage := Some u |}) <$> groq;
     chunk_choices := choices |}.

(** [error: {message: "rate limited"}] and nothing else. *)
Definition rateLimitedChunk : ChunkResponse :=
  {| chunk_id := None; chunk_object := None; chunk_model := None;
     chunk_error := Some {| error_message := Some "rate limited" |};
     chunk_warning := None; chunk_usage := None; chunk_x_groq := None;
     chunk_choices := [] |}.

(** A non-streaming response with the given choices and nothing else. *)
Definition plainResponse (choices : list NSChoice) : Response :=
  {| response_model := None; response_error := None; response_warning := None;
     response_usage := None; response_choices := choices |}.

(** The state in which a data event reaches its choice, and the sink calls
    made until then (model report, usage counters). *)
Definition gateState (json : ChunkResponse) (s : Session) : Session :=
  (warnOnce json (reportModel json s).1.1).1.1.

Definition gateCalls (json : ChunkResponse) (s : Session) : list SinkCall :=
  (reportModel json s).1.2
  ++ option_list (setCounters <$> primaryCounters json)
  ++ option_list (setCounters ∘ groqCounters <$> (chunk_x_groq json ≫= xgroq_usage)).

(** [accumulator.content] after the text fragments [fs], starting from [c]. *)
Definition appendFragments (c : option string) (fs : list string) : option string :=
  foldl (λ c f, Some (default "" c +:+ f)) c fs.

(** ** Tool-call entries *)

(** The tool-call entries an event carries, in order. *)
Definition chunkToolCalls (json : ChunkResponse) : list DeltaToolCall :=
  choice ← chunk_choices json;
  delta ← option_list (choice_delta choice);
  default [] (delta_tool_calls delta).

(** The same event with [tcs] as the tool-call list of its delta. *)
Definition withToolCalls (tcs : list DeltaToolCall) (json : ChunkResponse) : ChunkResponse :=
  {| chunk_id := chunk_id json; chunk_object := chunk_object json;
     chunk_model := chunk_model json; chunk_error := chunk_error json;
     chunk_warning := chunk_warning json; chunk_usage := chunk_usage json;
     chunk_x_groq := chunk_x_groq json;
     chunk_choices :=
       (λ choice,
          {| choice_index := choice_index choice;
             choice_delta :=
               (λ delta, {| delta_content := delta_content delta;
                            delta_tool_calls := Some tcs |}) <$> choice_delta choice;
             choice_finish_reason := choice_finish_reason choice |})
       <$> chunk_choices json |}.

(** An entry that updates a tool call recorded in [a]: its type is accepted,
    the index it addresses has an entry, a non-empty id is that entry's id,
    and it carries no non-empty name. *)
Definition updateEntry (a : Accumulator) (e : DeltaToolCall) : Prop :=
  badToolCallType (dtc_type e) = None
  ∧ ∃ tc, tool_calls a !! resolveIndex a e = Some tc
      ∧ (∀ id, strTruthy (dtc_id e) = Some id → id = tc_id tc)
      ∧ strTruthy (fn_name (dtc_function e)) = None.

(** [b] has tool calls at the same indices as [a], with the same ids, and
    the same [length]. *)
Definition sameShape (a b : Accumulator) : Prop :=
  tool_calls_length b = tool_calls_length a
  ∧ ∀ i, tc_id <$> tool_calls b !! i = tc_id <$> tool_calls a !! i.

(** The non-empty argument fragments that [tcs] address to index [i]. *)
Definition fragmentsFor (a : Accumulator) (i : Z) (tcs : list DeltaToolCall) : list string :=
  omap (λ e, if decide (resolveIndex a e = i)
             then strTruthy (fn_arguments (dtc_function e)) else None) tcs.

(** The (id, fragment) pairs of the non-empty argument fragments of [tcs],
    the id being that of the tool call addressed. *)
Definition argsAppendsFor (a : Accumulator) (tcs : list DeltaToolCall)
  : list (string * string) :=
  omap (λ e, tc ← tool_calls a !! resolveIndex a e;
             f ← strTruthy (fn_arguments (dtc_function e));
             Some (tc_id tc, f)) tcs.

Definition growArguments (fs : list string) (tc : ToolCall) : ToolCall :=
  {| tc_id := tc_id tc; tc_name := tc_name tc;
     tc_arguments := tc_arguments tc +:+ String.concat "" fs |}.

(** The entry a creating tool-call delta [e] adds, when [n] identifiers
    have been issued before. *)
Definition createdToolCall (newId : string → nat → string) (n : nat) (e : DeltaToolCall)
  : ToolCall :=
  {| tc_id := default (newId "aix-tool-call-id" n) (strTruthy (dtc_id e));
     tc_name := strOr (fn_name (dtc_function e)) "";
     tc_arguments := strOr (fn_arguments (dtc_function e)) "" |}.

(** [updateEntry], as a test. *)
Definition isUpdateEntry (a : Accumulator) (e : DeltaToolCall) : bool :=
  bool_decide (badToolCallType (dtc_type e) = None)
  && match tool_calls a !! resolveIndex a e with
     | Some tc =>
         bool_decide (strTruthy (dtc_id e) = None ∨ strTruthy (dtc_id e) = Some (tc_id tc))
         && bool_decide (strTruthy (fn_name (dtc_function e)) = None)
     | None => false
     end.

(** The entries of [tcs] that come before the first one that does not update
    a tool call recorded in [a] (one that creates a tool call, or is
    rejected). *)
Fixpoint updatesPrefix (a : Accumulator) (tcs : list DeltaToolCall) : list DeltaToolCall :=
  match tcs with
  | [] => []
  | e :: rest => if isUpdateEntry a e then e :: updatesPrefix a rest else []
  end.

(** The tool-call entries of an event that reaches the tool-call loop: no
    upstream error, not the sentinel, exactly one choice, with index [0] or
    none, and a delta whose content is well-typed.  Any other event has
    none. *)
Definition loopEntries (json : ChunkResponse) : list DeltaToolCall :=
  match chunk_error json, isAzureSentinel json, chunk_choices json with
  | None, false, [choice] =>
      match badChoiceIndex (choice_index choice), choice_delta choice with
      | None, Some delta =>
          match delta_content delta with
          | ContentOther _ => []
          | _ => default [] (delta_tool_calls delta)
          end
      | _, _ => []
      end
  | _, _, _ => []
  end.

(** The applied entries of an event that arrives when the accumulator is
    [a]: the entries of an event that reaches the tool-call loop, up to the
    first one that does not update a recorded tool call. *)
Definition appliedEntries (a : Accumulator) (json : ChunkResponse) : list DeltaToolCall :=
  updatesPrefix a (loopEntries json).

(** The non-empty argument fragments that the applied entries of [events]
    address to index [i], in arrival order; each event is read in the state
    in which it arrives, [s] being the state before the first. *)
Fixpoint appliedFragments (render : UpstreamError → option string)
    (newId : string → nat → string) (i : Z) (events : list ChunkResponse) (s : Session)
  : list string :=
  match events with
  | [] => []
  | json :: rest =>
      fragmentsFor (accumulator s) i (appliedEntries (accumulator s) json)
      ++ appliedFragments render newId i rest
           (createOpenAIChatCompletionsChunkParser render newId json s).1.1
  end.

(** The same fragments over all indices, each with the id of the tool call
    it is addressed to. *)
Fixpoint appliedAppends (render : UpstreamError → option string)
    (newId : string → nat → string) (events : list ChunkResponse) (s : Session)
  : list (string * string) :=
  match events with
  | [] => []
  | json :: rest =>
      argsAppendsFor (accumulator s) (appliedEntries (accumulator s) json)
      ++ appliedAppends render newId rest
           (createOpenAIChatCompletionsChunkParser render newId json s).1.1
  end.

(** A run that ended in [r], started in [s], was quiet: the recorded tool
    calls are as they were and no argument fragment was sent. *)
Definition quiet (r : Session * list SinkCall) (s : Session) : Prop :=
  tool_calls (accumulator r.1) = tool_calls (accumulator s)
  ∧ omap argsAppendOf r.2 = [].

(** A session in which the tool call [tc1] has been created at index 0:
    the state after
    [{choices: [{index: 0, delta: {tool_calls:
       [{index: 0, id: "tc1", function: {name: "get_weather", arguments: ""}}]}}]}]. *)
Definition weatherStart : ChunkResponse :=
  plainChunk None
    [toolCallsChoice [deltaToolCallOf 0 (Some "tc1") (Some "get_weather") (Some "")]].

Definition weatherSession : Session :=
  (createOpenAIChatCompletionsChunkParser safeErrorString serverSideId weatherStart
     freshSession).1.1.

(** ** Effects of a whole run

    [tracks P m]: every run of [m] relates the state before, the sink calls
    made and the state after by [P].  [P] composes when it holds of doing
    nothing and of doing one thing after another. *)

Definition tracks {S A} (P : S → list SinkCall → S → Prop) (m : M S A) : Prop :=
  ∀ s, P s (m s).1.2 (m s).1.1.

Class Composes {S} (P : S → list SinkCall → S → Prop) : Prop := {
  composes_nil : ∀ s, P s [] s;
  composes_app : ∀ s1 t1 s2 t2 s3, P s1 t1 s2 → P s2 t2 s3 → P s1 (t1 ++ t2) s3;
}.

(** The state changes and sink calls the streaming parser is made of, each
    with the test that guards it in the source. *)
Record RespectsActions (P : Session → list SinkCall → Session → Prop) : Prop := {
  act_model : ∀ s model,
    hasBegun s = false → P s [setModelName model] (setHasBegun true s);
  act_issue : ∀ s text, P s [setDialectTerminatingIssue text IssueGeneric] s;
  act_warn : ∀ s w,
    hasWarned s = false → P s [] (consoleLog (LogChunkWarning w) (setHasWarned true s));
  act_counters : ∀ s k, P s [setCounters k] s;
  act_text : ∀ s text,
    P s [appendText text]
      (setAccumulator
         (setContent (Some (default "" (strTruthy (content (accumulator s))) +:+ text))
            (accumulator s)) s);
  act_create : ∀ s s0 i created,
    tool_calls (accumulator s) !! i = None → s0 = s ∨ s0 = tickIds s →
    P s [startFunctionToolCall (tc_id created) (tc_name created) incr_str
           (tc_arguments created)]
      (setAccumulator (arrayStore (accumulator s0) i created) s0);
  act_update : ∀ s i tc fragment,
    tool_calls (accumulator s) !! i = Some tc → fragment ≠ "" →
    P s [appendFunctionToolCallArgsIStr (tc_id tc) fragment]
      (setAccumulator (appendArguments i fragment (accumulator s)) s);
}.

(** [s'] extends [s]: every recorded tool call is still there with the same
    id and name and with arguments that only grew at the end, the text
    content only grew at the end and stays a string once it is one, [length]
    did not shrink, and the latches did not reset. *)
Definition extends (s s' : Session) : Prop :=
  (∀ i tc, tool_calls (accumulator s) !! i = Some tc →
     ∃ suffix, tool_calls (accumulator s') !! i
               = Some {| tc_id := tc_id tc; tc_name := tc_name tc;
                         tc_arguments := tc_arguments tc +:+ suffix |})
  ∧ (∃ suffix, default "" (content (accumulator s'))
               = default "" (content (accumulator s)) +:+ suffix)
  ∧ (is_Some (content (accumulator s)) → is_Some (content (accumulator s')))
  ∧ tool_calls_length (accumulator s) ≤ tool_calls_length (accumulator s')
  ∧ (hasBegun s = true → hasBegun s' = true)
  ∧ (hasWarned s = true → hasWarned s' = true).

(** The sink's text is the accumulator's: what was appended to the content
    is what [appendText] was called with. *)
Definition textAgrees (s : Session) (t : list SinkCall) (s' : Session) : Prop :=
  default "" (content (accumulator s'))
  = default "" (content (accumulator s)) +:+ String.concat "" (omap textOf t).

Definition startOf (c : SinkCall) : option (string * string * string) :=
  match c with
  | startFunctionToolCall id name _ args => Some (id, name, args)
  | _ => None
  end.

(** Tool calls are recorded exactly when they are announced: one more entry
    per [startFunctionToolCall], and every entry that was not there before
    has a call with its id and name. *)
Definition announcesEntries (s : Session) (t : list SinkCall) (s' : Session) : Prop :=
  size (tool_calls (accumulator s'))
  = (size (tool_calls (accumulator s)) + length (omap startOf t))%nat
  ∧ ∀ i tc', tool_calls (accumulator s') !! i = Some tc' →
      (∃ tc, tool_calls (accumulator s) !! i = Some tc
             ∧ tc_id tc = tc_id tc' ∧ tc_name tc = tc_name tc')
      ∨ ∃ seed, startFunctionToolCall (tc_id tc') (tc_name tc') incr_str seed ∈ t.

(** What JavaScript keeps true of an array: [length] is within bounds and
    above every array index that holds an element. *)
Definition arrayInvariant (a : Accumulator) : Prop :=
  0 ≤ tool_calls_length a ≤ 2 ^ 32 - 1
  ∧ ∀ i, is_Some (tool_calls a !! i) → isArrayIndex i = true → i < tool_calls_length a.

(** [announced known t]: every argument fragment in [t] is keyed by an id
    that is in [known] or that an earlier [startFunctionToolCall] of [t]
    introduced. *)
Fixpoint announced (known : list string) (t : list SinkCall) : Prop :=
  match t with
  | [] => True
  | startFunctionToolCall id _ _ _ :: t' => announced (id :: known) t'
  | appendFunctionToolCallArgsIStr id _ :: t' => id ∈ known ∧ announced known t'
  | _ :: t' => announced known t'
  end.

Definition startIdOf (c : SinkCall) : option string :=
  match c with startFunctionToolCall id _ _ _ => Some id | _ => None end.

Definition keysAnnounced (s : Session) (t : list SinkCall) (s' : Session) : Prop :=
  ∀ known,
    (∀ i tc, tool_calls (accumulator s) !! i = Some tc → tc_id tc ∈ known) →
    announced known t
    ∧ ∀ i tc, tool_calls (accumulator s') !! i = Some tc →
        tc_id tc ∈ omap startIdOf t ++ known.

(** The first truthy [warning] among the events that carry no [error]. *)
Definition firstWarning (events : list ChunkResponse) : option string :=
  head (omap (λ json, match chunk_error json with
                      | None => strTruthy (chunk_warning json)
                      | Some _ => None
                      end) events).

(** The state the warning latch leaves. *)
Definition warnOnceState (json : ChunkResponse) (s : Session) : Session :=
  match strTruthy (chunk_warning json), hasWarned s with
  | Some w, false => consoleLog (LogChunkWarning w) (setHasWarned true s)
  | _, _ => s
  end.

(** ** The non-streaming parser's calls *)

(** What the non-streaming parser prints and reports before it looks at the
    choices. *)
Definition nsLogs (json : Response) : list LogEntry :=
  option_list (LogNSError <$> response_error json)
  ++ option_list (LogNSWarning <$> strTruthy (response_warning json)).

Definition nsReports (json : Response) : list SinkCall :=
  option_list (setModelName <$> strTruthy (response_model json))
  ++ option_list
       ((λ usage, setCounters {| chatIn := Some (ns_prompt_tokens usage);
                                 chatOut := Some (ns_completion_tokens usage);
                                 chatOutRate := None; chatTimeInner := None |})
          <$> response_usage json).

(** A complete tool call, started and closed at once. *)
Definition nsToolCallCalls (toolCall : NSToolCall) : list SinkCall :=
  [startFunctionToolCall (nstc_id toolCall) (nsfn_name (nstc_function toolCall)) incr_str
     (nsfn_arguments (nstc_function toolCall));
   endMessagePart].

(** The sink calls about tool calls: starts, argument fragments, closings. *)
Definition toolPartOf (c : SinkCall) : option SinkCall :=
  match c with
  | startFunctionToolCall _ _ _ _ | appendFunctionToolCallArgsIStr _ _ | endMessagePart =>
      Some c
  | _ => None
  end.

(** A response with one choice, of index [0], that has a message. *)
Definition messageResponse (json : Response) (choice : NSChoice) (message : NSMessage) : Prop :=
  response_choices json = [choice] ∧ nschoice_index choice = 0
  ∧ nschoice_message choice = Some message.

(** The text the non-streaming parser forwards for a message content: a
    non-empty string, as one fragment. *)
Definition nsTexts (c : Content) : list string :=
  match c with
  | ContentString text => if decide (text = "") then [] else [text]
  | _ => []
  end.

(** * Properties *)

(** ** The spec's scenarios, run *)

Example scenario_text :
  let r := processChunks safeErrorString serverSideId
             [plainChunk (Some "m1") [textChoice "Hel"]; plainChunk None [textChoice "lo"]]
             freshSession in
  r.1.2 = [setModelName "m1"; appendText "Hel"; appendText "lo"]
  ∧ content (accumulator r.1.1) = Some "Hello".
Proof. split; reflexivity. Qed.

Example scenario_tool_call :
  (processChunks safeErrorString serverSideId
     [weatherStart;
      plainChunk None [toolCallsChoice [deltaToolCallOf 0 None None (Some "{city")]]]
     freshSession).1.2
  = [startFunctionToolCall "tc1" "get_weather" incr_str "";
     appendFunctionToolCallArgsIStr "tc1" "{city"].
Proof. reflexivity. Qed.

Example scenario_final_usage :
  createOpenAIChatCompletionsChunkParser safeErrorString serverSideId
    (statsChunk (Some {| prompt_tokens := Some 10; completion_tokens := Some 20 |}) None [])
    freshSession
  = (freshSession,
     [setCounters {| chatIn := Some 10; chatOut := Some 20;
                     chatOutRate := None; chatTimeInner := None |}],
     Normal tt).
Proof. reflexivity. Qed.

Example scenario_generated_id :
  (createOpenAIChatCompletionsChunkParser safeErrorString serverSideId
     (plainChunk None
        [toolCallsChoice
           [{| dtc_index := None; dtc_id := None; dtc_type := Some "function";
               dtc_function := {| fn_name := Some "get_time"; fn_arguments := None |} |}]])
     weatherSession).1.2
  = [startFunctionToolCall "aix-tool-call-id_0" "get_time" incr_str ""].
Proof. vm_compute. reflexivity. Qed.

Example scenario_groq_rate :
  groqOutRate 7 0.3 = Some 23.33%float.
Proof. reflexivity. Qed.

(** The rate is the double the division and the product give, not the
    rounded quotient of the exact values: [201 / 200 * 100] is just below
    100.5, and [17 / 1.088 * 100] just below 1562.5. *)
Example scenario_groq_rate_double :
  groqOutRate 201 200 = Some 1%float ∧ groqOutRate 17 1.088 = Some 15.62%float.
Proof. split; reflexivity. Qed.

Example scenario_groq_rate_absent :
  groqOutRate 0 0.3 = None ∧ groqOutRate 7 0 = None ∧ groqOutRate 7 (-0) = None.
Proof. repeat split; reflexivity. Qed.

Example scenario_math_round :
  mathRound 2.5 = 3%float ∧ mathRound (-2.5) = (-2)%float
  ∧ mathRound 0.49999999999999994 = 0%float ∧ mathRound (-0.2) = (-0)%float
  ∧ mathRound 9007199254740991 = 9007199254740991%float.
Proof. repeat split; reflexivity. Qed.

(** ** Strings *)

Lemma append_nil_r (s : string) : s +:+ "" = s.
Proof.
  induction s as [|a s IH]; [reflexivity |].
  change (String a (s +:+ "") = String a s). now f_equal.
Qed.

Lemma append_assoc (s1 s2 s3 : string) : (s1 +:+ s2) +:+ s3 = s1 +:+ (s2 +:+ s3).
Proof.
  induction s1 as [|a s1 IH]; [reflexivity |].
  change (String a ((s1 +:+ s2) +:+ s3) = String a (s1 +:+ (s2 +:+ s3))). now f_equal.
Qed.

Lemma concat_cons (s : string) (l : list string) :
  String.concat "" (s :: l) = s +:+ String.concat "" l.
Proof. destruct l; simpl; [now rewrite append_nil_r | reflexivity]. Qed.

Lemma concat_app (l1 l2 : list string) :
  String.concat "" (l1 ++ l2) = String.concat "" l1 +:+ String.concat "" l2.
Proof.
  induction l1 as [|s l1 IH]; [reflexivity |].
  rewrite <- app_comm_cons, !concat_cons, IH. now rewrite append_assoc.
Qed.

Lemma strTruthy_default (o : option string) : default "" (strTruthy o) = default "" o.
Proof. destruct o as [s|]; simpl; [|reflexivity]. now destruct (decide (s = "")) as [->|]. Qed.

Lemma strTruthy_some (s : string) : s ≠ "" → strTruthy (Some s) = Some s.
Proof. intros Hs. unfold strTruthy. now rewrite decide_False. Qed.

(** ** Running a handler *)

Section Run.
Context {S : Type}.

Lemma bind_normal {A B} (m : M S A) (f : A → M S B) s s1 t1 a :
  m s = (s1, t1, Normal a) →
  bind m f s = ((f a s1).1.1, t1 ++ (f a s1).1.2, (f a s1).2).
Proof. intros E. unfold bind. rewrite E. now destruct (f a s1) as [[? ?] ?]. Qed.

Lemma bind_returned {A B} (m : M S A) (f : A → M S B) s s1 t1 :
  m s = (s1, t1, Returned) → bind m f s = (s1, t1, Returned).
Proof. intros E. unfold bind. now rewrite E. Qed.

Lemma bind_thrown {A B} (m : M S A) (f : A → M S B) s s1 t1 e :
  m s = (s1, t1, Thrown e) → bind m f s = (s1, t1, Thrown e).
Proof. intros E. unfold bind. now rewrite E. Qed.

Context (R : relation S) `{!PreOrder R} (Q : SinkCall → Prop).

Lemma frames_ret {A} (a : A) : frames R Q (ret a).
Proof. intros s. split; [reflexivity | constructor]. Qed.

Lemma frames_get : frames R Q get.
Proof. intros s. split; [reflexivity | constructor]. Qed.

Lemma frames_throw {A} e : frames R Q (@throw S A e).
Proof. intros s. split; [reflexivity | constructor]. Qed.

Lemma frames_return {A} : frames R Q (@return_ S A).
Proof. intros s. split; [reflexivity | constructor]. Qed.

Lemma frames_modify f : (∀ s, R s (f s)) → frames R Q (modify f).
Proof. intros Hf s. split; [apply Hf | constructor]. Qed.

Lemma frames_pt c : Q c → frames R Q (pt c).
Proof. intros Hc s. split; [reflexivity | repeat constructor; exact Hc]. Qed.

Lemma frames_bind {A B} (m : M S A) (f : A → M S B) :
  frames R Q m → (∀ a, frames R Q (f a)) → frames R Q (bind m f).
Proof.
  intros Hm Hf s. specialize (Hm s). unfold bind.
  destruct (m s) as [[s1 t1] [a| |e]]; simpl in *; try exact Hm.
  specialize (Hf a s1). destruct (f a s1) as [[s2 t2] o]; simpl in *.
  destruct Hm as [Hm1 Hm2], Hf as [Hf1 Hf2].
  split; [etransitivity; eassumption | now apply Forall_app].
Qed.

Lemma frames_when c m : frames R Q m → frames R Q (when c m).
Proof. destruct c; simpl; [trivial | intros _; apply frames_ret]. Qed.

Lemma frames_call m : frames R Q m → frames R Q (call m).
Proof.
  intros Hm s. specialize (Hm s). unfold call.
  now destruct (m s) as [[s1 t1] [[]| |e]].
Qed.

End Run.

Lemma frames_weaken {S A} (R R' : relation S) (Q Q' : SinkCall → Prop) (m : M S A) :
  (∀ s s', R s s' → R' s s') → (∀ c, Q c → Q' c) → frames R Q m → frames R' Q' m.
Proof.
  intros HR HQ Hm s. destruct (Hm s) as [H1 H2].
  split; [now apply HR | eapply Forall_impl; eauto].
Qed.

#[local] Instance keeps_preorder {S T} (f : S → T) : PreOrder (keeps f).
Proof. split; [intros s; reflexivity | intros s1 s2 s3 H1 H2; unfold keeps in *; congruence]. Qed.

Lemma omap_none_forall {A B} (f : A → option B) (l : list A) :
  Forall (λ x, f x = None) l → omap f l = [].
Proof. induction 1 as [|x l Hx _ IH]; simpl; [reflexivity | now rewrite Hx]. Qed.

Ltac keeps_weaken :=
  let H := fresh in intros ? ? H; unfold keeps in *; simpl in *; congruence.

Ltac frames_step :=
  lazymatch goal with
  | |- frames _ _ (bind _ _) => apply frames_bind; [apply _ | | intros ?]
  | |- frames _ _ (ret _) => apply frames_ret; apply _
  | |- frames _ _ get => apply frames_get; apply _
  | |- frames _ _ (throw _) => apply frames_throw; apply _
  | |- frames _ _ return_ => apply frames_return; apply _
  | |- frames _ _ (when _ _) => apply frames_when; [apply _ |]
  | |- frames _ _ (call _) => apply frames_call
  | |- frames _ _ (modify _) => apply frames_modify; intros ?; reflexivity
  | |- frames _ _ (pt _) => apply frames_pt; [apply _ | try reflexivity]
  | |- frames _ _ (match ?x with _ => _ end) => destruct x eqn:?
  end.

Ltac frames_auto := repeat frames_step.

(** ** What each phase of the streaming parser touches *)

Section Phases.

Variable render : UpstreamError → option string.
Variable newId : string → nat → string.

Abbreviation parser := (createOpenAIChatCompletionsChunkParser render newId).

Lemma toolCallStep_frames d :
  frames (keeps (λ s, (hasBegun s, hasWarned s, console s, content (accumulator s))))
    (λ c, isToolCallCall c = true) (toolCallStep newId d).
Proof. unfold toolCallStep. frames_auto. Qed.

Lemma toolCallsLoop_frames tcs :
  frames (keeps (λ s, (hasBegun s, hasWarned s, console s, content (accumulator s))))
    (λ c, isToolCallCall c = true) (toolCallsLoop newId tcs).
Proof.
  induction tcs as [|d tcs IH]; simpl; [frames_auto |].
  apply frames_bind; [apply _ | apply toolCallStep_frames | intros []; [exact IH | frames_auto]].
Qed.

Lemma deltaText_frames c :
  frames (keeps (λ s, (hasBegun s, hasWarned s, console s, idsIssued s,
                        tool_calls (accumulator s), tool_calls_length (accumulator s))))
    (λ c, isContentCall c = true) (deltaText c).
Proof. unfold deltaText. frames_auto. Qed.

Lemma choiceStep_frames choice :
  frames (keeps (λ s, (hasBegun s, hasWarned s, console s)))
    (λ c, isContentCall c = true) (choiceStep newId choice).
Proof.
  unfold choiceStep. frames_auto.
  - eapply frames_weaken; [| | apply deltaText_frames]; [keeps_weaken | auto].
  - eapply frames_weaken; [| | apply toolCallsLoop_frames]; [keeps_weaken |].
    intros []; simpl; congruence.
Qed.

Lemma choicesLoop_frames choices :
  frames (keeps (λ s, (hasBegun s, hasWarned s, console s)))
    (λ c, isContentCall c = true) (choicesLoop newId choices).
Proof.
  induction choices as [|choice choices IH]; simpl; [frames_auto |].
  apply frames_bind; [apply _ | apply choiceStep_frames | intros _; exact IH].
Qed.

Lemma upstreamError_frames json :
  frames (keeps id) (λ c, is_Some (issueOf c)) (upstreamError render json).
Proof. unfold upstreamError. frames_auto. simpl. eauto. Qed.

Lemma warnOnce_frames json :
  frames (keeps (λ s, (hasBegun s, accumulator s, idsIssued s))) (λ _, False)
    (warnOnce json).
Proof. unfold warnOnce. frames_auto. Qed.

Lemma primaryUsage_frames json :
  frames (keeps id) (λ c, is_Some (countersOf c)) (primaryUsage json).
Proof. unfold primaryUsage. frames_auto. simpl. eauto. Qed.

Lemma groqUsage_frames json :
  frames (keeps id) (λ c, is_Some (countersOf c)) (groqUsage json).
Proof. unfold groqUsage. frames_auto. simpl. eauto. Qed.

End Phases.

(** ** Sessions *)

Section Sessions.

Variable render : UpstreamError → option string.
Variable newId : string → nat → string.

Abbreviation parser := (createOpenAIChatCompletionsChunkParser render newId).
Abbreviation session := (processChunks render newId).

Lemma call_effects {S} (m : M S unit) s : (call m s).1 = (m s).1.
Proof. unfold call. now destruct (m s) as [[s1 t1] [[]| |e]]. Qed.

Lemma session_cons json events s :
  session (json :: events) s =
    ((session events (parser json s).1.1).1.1,
     (parser json s).1.2 ++ (session events (parser json s).1.1).1.2,
     (parser json s).2 :: (session events (parser json s).1.1).2).
Proof.
  simpl. destruct (parser json s) as [[s1 t1] o1]. simpl.
  now destruct (session events s1) as [[s2 t2] os].
Qed.

(** Everything after the model report leaves the latch alone and never
    names a model. *)
Lemma afterModel_frames json :
  frames (keeps hasBegun) (λ c, modelNameOf c = None)
    (upstreamError render json ;;
     warnOnce json ;;
     when (isAzureSentinel json) return_ ;;
     primaryUsage json ;;
     groqUsage json ;;
     when (negb (bool_decide (length (chunk_choices json) = 1%nat)))
       (throw (ExpectedOneCompletion (length (chunk_choices json)))) ;;
     choicesLoop newId (chunk_choices json)).
Proof.
  repeat (apply frames_bind; [apply _ | | intros _]).
  - eapply frames_weaken; [| | apply upstreamError_frames]; [keeps_weaken |].
    now intros [] [? ?].
  - eapply frames_weaken; [| | apply warnOnce_frames]; [keeps_weaken | intros ? []].
  - frames_auto.
  - eapply frames_weaken; [| | apply primaryUsage_frames]; [keeps_weaken |].
    now intros [] [? ?].
  - eapply frames_weaken; [| | apply groqUsage_frames]; [keeps_weaken |].
    now intros [] [? ?].
  - frames_auto.
  - eapply frames_weaken; [| | apply choicesLoop_frames]; [keeps_weaken |].
    now intros [].
Qed.

Lemma parser_modelName json s :
  omap modelNameOf (parser json s).1.2
    = (if hasBegun s then [] else option_list (strTruthy (chunk_model json)))
  ∧ hasBegun (parser json s).1.1
    = hasBegun s || bool_decide (is_Some (strTruthy (chunk_model json))).
Proof.
  unfold createOpenAIChatCompletionsChunkParser. rewrite call_effects.
  pose proof (afterModel_frames json) as Hrest.
  set (rest := bind (upstreamError render json) _) in *. clearbody rest.
  unfold bind at 1 2, reportModel, get, bind, modify, pt, ret.
  destruct (hasBegun s) eqn:Hb; simpl.
  - destruct (Hrest s) as [H1 H2]. destruct (rest s) as [[s1 t1] o]; simpl in *.
    unfold keeps in H1. split; [| congruence].
    apply omap_none_forall. exact H2.
  - destruct (strTruthy (chunk_model json)) as [m|]; simpl.
    + destruct (Hrest (setHasBegun true s)) as [H1 H2].
      destruct (rest (setHasBegun true s)) as [[s1 t1] o]; simpl in *.
      unfold keeps in H1. split; [| exact H1].
      f_equal. apply omap_none_forall. exact H2.
    + destruct (Hrest s) as [H1 H2]. destruct (rest s) as [[s1 t1] o]; simpl in *.
      unfold keeps in H1. split; [| congruence].
      apply omap_none_forall. exact H2.
Qed.

Lemma session_modelName events s :
  omap modelNameOf (session events s).1.2
    = if hasBegun s then [] else option_list (firstModelName events).
Proof.
  revert s. induction events as [|json events IH]; intros s.
  - simpl. now destruct (hasBegun s).
  - rewrite session_cons. simpl. rewrite omap_app, IH.
    destruct (parser_modelName json s) as [-> ->].
    unfold firstModelName. simpl.
    destruct (hasBegun s); simpl; [reflexivity |].
    destruct (strTruthy (chunk_model json)) as [m|]; simpl; reflexivity.
Qed.

(** *** Stepping through the phases *)

Lemma call_bind_normal {A} (m : M Session A) (f : A → M Session unit) s s1 t1 a :
  m s = (s1, t1, Normal a) →
  call (bind m f) s = ((call (f a) s1).1.1, t1 ++ (call (f a) s1).1.2, (call (f a) s1).2).
Proof.
  intros E. unfold call. rewrite (bind_normal _ _ _ _ _ _ E).
  now destruct (f a s1) as [[s2 t2] [[]| |e]].
Qed.

Lemma reportModel_run json s :
  ∃ s1 t1, reportModel json s = (s1, t1, Normal tt)
    ∧ keeps (λ s, (hasWarned s, accumulator s, idsIssued s, console s)) s s1
    ∧ Forall (λ c, is_Some (modelNameOf c)) t1.
Proof.
  unfold reportModel, bind, get, modify, pt, ret, keeps.
  destruct (hasBegun s); [| destruct (strTruthy (chunk_model json))]; simpl;
    eexists _, _; (split; [reflexivity |]); split; try reflexivity;
    repeat constructor; simpl; eauto.
Qed.

Lemma warnOnce_run json s :
  ∃ s1, warnOnce json s = (s1, [], Normal tt)
    ∧ keeps (λ s, (hasBegun s, accumulator s, idsIssued s)) s s1.
Proof.
  unfold warnOnce, bind, get, modify, ret, keeps.
  destruct (strTruthy (chunk_warning json)); [destruct (hasWarned s) |]; simpl;
    eexists; split; reflexivity.
Qed.

(** Past the error and sentinel gates, an event runs the usage phases and
    the choices in a state with the same accumulator, after at most a
    model report. *)
Lemma parser_gates json s :
  chunk_error json = None → isAzureSentinel json = false →
  ∃ s1 t1,
    keeps (λ s, (accumulator s, idsIssued s)) s s1
    ∧ Forall (λ c, is_Some (modelNameOf c)) t1
    ∧ parser json s =
        let r := call (primaryUsage json ;;
                       groqUsage json ;;
                       when (negb (bool_decide (length (chunk_choices json) = 1%nat)))
                         (throw (ExpectedOneCompletion (length (chunk_choices json)))) ;;
                       choicesLoop newId (chunk_choices json)) s1 in
        (r.1.1, t1 ++ r.1.2, r.2).
Proof.
  intros He Hs.
  destruct (reportModel_run json s) as (s1 & t1 & E1 & K1 & Q1).
  destruct (warnOnce_run json s1) as (s2 & E2 & K2).
  exists s2, t1. split; [unfold keeps in *; simpl in *; congruence |].
  split; [exact Q1 |].
  unfold createOpenAIChatCompletionsChunkParser.
  rewrite (call_bind_normal _ _ _ _ _ _ E1).
  unfold upstreamError. rewrite He, Hs.
  assert (Hr : @ret Session unit tt s1 = (s1, [], Normal tt)) by reflexivity.
  rewrite (call_bind_normal _ _ _ _ _ _ Hr).
  rewrite (call_bind_normal _ _ _ _ _ _ E2).
  assert (Hw : when false (@return_ Session unit) s2 = (s2, [], Normal tt)) by reflexivity.
  rewrite (call_bind_normal _ _ _ _ _ _ Hw).
  reflexivity.
Qed.

Lemma primaryUsage_run json s :
  ¬ usageOnlyChunk json →
  primaryUsage json s =
    (s, match chunk_usage json with
        | Some u => option_list (setCounters ∘ usageCounters (prompt_tokens u)
                                   <$> completion_tokens u)
        | None => []
        end, Normal tt).
Proof.
  intros Hn. unfold primaryUsage.
  destruct (chunk_usage json) as [u|] eqn:Hu; [| reflexivity].
  assert (bool_decide (chunk_choices json = []) = false) as Hc.
  { apply bool_decide_eq_false. intros Hc. apply Hn. split; [rewrite Hu; eauto | exact Hc]. }
  unfold bind. rewrite Hc. now destruct (completion_tokens u).
Qed.

Lemma primaryUsage_only json s u :
  chunk_usage json = Some u → chunk_choices json = [] →
  primaryUsage json s =
    (s, option_list (setCounters ∘ usageCounters (prompt_tokens u) <$> completion_tokens u),
     Returned).
Proof.
  intros Hu Hc. unfold primaryUsage, bind. rewrite Hu, Hc.
  now destruct (completion_tokens u).
Qed.

Lemma groqUsage_run json s :
  groqUsage json s =
    (s, option_list (setCounters ∘ groqCounters <$> (chunk_x_groq json ≫= xgroq_usage)),
     Normal tt).
Proof. unfold groqUsage. now destruct (chunk_x_groq json ≫= xgroq_usage). Qed.

Lemma choices_no_counters json :
  frames (keeps (λ _, tt)) (λ c, countersOf c = None)
    (when (negb (bool_decide (length (chunk_choices json) = 1%nat)))
       (throw (ExpectedOneCompletion (length (chunk_choices json)))) ;;
     choicesLoop newId (chunk_choices json)).
Proof.
  frames_auto.
  eapply frames_weaken; [| | apply choicesLoop_frames]; [keeps_weaken | now intros []].
Qed.

(** *** Counters *)

Lemma omap_counters_models t :
  Forall (λ c, is_Some (modelNameOf c)) t → omap countersOf t = [].
Proof.
  intros H. apply omap_none_forall. eapply Forall_impl; [exact H |].
  now intros [] [? ?].
Qed.

Lemma parser_counters json s :
  chunk_error json = None → isAzureSentinel json = false → ¬ usageOnlyChunk json →
  omap countersOf (parser json s).1.2
    = option_list (primaryCounters json)
      ++ option_list (groqCounters <$> (chunk_x_groq json ≫= xgroq_usage)).
Proof.
  intros He Hs Hn.
  destruct (parser_gates json s He Hs) as (s1 & t1 & _ & Q1 & ->).
  cbv zeta. cbn [fst snd]. rewrite omap_app, (omap_counters_models _ Q1), call_effects.
  rewrite (bind_normal _ _ _ _ _ _ (primaryUsage_run json s1 Hn)). cbn [fst snd].
  rewrite (bind_normal _ _ _ _ _ _ (groqUsage_run json s1)). cbn [fst snd].
  rewrite !omap_app.
  destruct (choices_no_counters json s1) as [_ Hrest].
  rewrite (omap_none_forall _ _ Hrest), app_nil_r. cbn [app].
  f_equal.
  - unfold primaryCounters. destruct (chunk_usage json) as [u|]; [| reflexivity].
    cbn. now destruct (completion_tokens u).
  - now destruct (chunk_x_groq json ≫= xgroq_usage).
Qed.

Lemma parser_usage_only json s u :
  chunk_error json = None → isAzureSentinel json = false →
  chunk_usage json = Some u → chunk_choices json = [] →
  omap countersOf (parser json s).1.2
    = option_list (usageCounters (prompt_tokens u) <$> completion_tokens u)
  ∧ (parser json s).2 = Normal tt.
Proof.
  intros He Hs Hu Hc.
  destruct (parser_gates json s He Hs) as (s1 & t1 & _ & Q1 & ->).
  cbv zeta. cbn [fst snd]. rewrite omap_app, (omap_counters_models _ Q1).
  unfold call. rewrite (bind_returned _ _ _ _ _ (primaryUsage_only json s1 u Hu Hc)).
  cbn [fst snd app]. split; [| reflexivity].
  now destruct (completion_tokens u).
Qed.

Lemma parser_primary_counters json s u c :
  chunk_error json = None → isAzureSentinel json = false →
  chunk_usage json = Some u → completion_tokens u = Some c →
  head (omap countersOf (parser json s).1.2) = Some (usageCounters (prompt_tokens u) c).
Proof.
  intros He Hs Hu Hc.
  destruct (chunk_choices json) as [|choice choices] eqn:Hl.
  - destruct (parser_usage_only json s u He Hs Hu Hl) as [-> _]. now rewrite Hc.
  - rewrite parser_counters; [| assumption | assumption |].
    + unfold primaryCounters. rewrite Hu. cbn. now rewrite Hc.
    + intros [_ Hn]. congruence.
Qed.

(** *** Data events *)

Lemma call_single_choice (body : M Session unit) s :
  call (bind (bind (ret tt) (λ _, body)) (λ _, ret tt)) s = call body s.
Proof.
  unfold call, bind, ret.
  destruct (body s) as [[s2 t2] [[]| |e]]; simpl; now rewrite ?app_nil_r.
Qed.

Lemma gateState_keeps json s :
  keeps (λ s, (accumulator s, idsIssued s)) s (gateState json s).
Proof.
  unfold gateState.
  destruct (reportModel_run json s) as (s1 & t1 & E1 & K1 & _). rewrite E1. cbn [fst snd].
  destruct (warnOnce_run json s1) as (s2 & E2 & K2). rewrite E2. cbn [fst snd].
  unfold keeps in *. simpl in *. congruence.
Qed.

Lemma gateCalls_no_content json s :
  Forall (λ c, isContentCall c = false) (gateCalls json s).
Proof.
  unfold gateCalls. rewrite !Forall_app. split; [| split].
  - destruct (reportModel_run json s) as (s1 & t1 & E1 & _ & Q1). rewrite E1. cbn [fst snd].
    eapply Forall_impl; [exact Q1 |]. now intros [] [? ?].
  - destruct (primaryCounters json); repeat constructor.
  - destruct (chunk_x_groq json ≫= xgroq_usage); repeat constructor.
Qed.

Lemma parser_dataChunk json s choice delta :
  dataChunk json choice delta →
  parser json s =
    let r := call (deltaText (delta_content delta) ;;
                   toolCallsLoop newId (default [] (delta_tool_calls delta)))
               (gateState json s) in
    (r.1.1, gateCalls json s ++ r.1.2, r.2).
Proof.
  intros (He & Hs & Hc & Hi & Hd).
  assert (Hn : ¬ usageOnlyChunk json) by (intros [_ Hn]; congruence).
  unfold gateState, gateCalls, createOpenAIChatCompletionsChunkParser.
  destruct (reportModel_run json s) as (s1 & t1 & E1 & _).
  rewrite (call_bind_normal _ _ _ _ _ _ E1), E1. cbn [fst snd].
  destruct (warnOnce_run json s1) as (s2 & E2 & _). rewrite E2. cbn [fst snd].
  unfold upstreamError. rewrite He, Hs.
  assert (Hr : @ret Session unit tt s1 = (s1, [], Normal tt)) by reflexivity.
  rewrite (call_bind_normal _ _ _ _ _ _ Hr).
  rewrite (call_bind_normal _ _ _ _ _ _ E2).
  assert (Hw : when false (@return_ Session unit) s2 = (s2, [], Normal tt)) by reflexivity.
  rewrite (call_bind_normal _ _ _ _ _ _ Hw).
  rewrite (call_bind_normal _ _ _ _ _ _ (primaryUsage_run json s2 Hn)).
  rewrite (call_bind_normal _ _ _ _ _ _ (groqUsage_run json s2)).
  rewrite Hc. cbn [length bool_decide negb].
  assert (Hl : when (negb (bool_decide (1%nat = 1%nat)))
                 (throw (ExpectedOneCompletion 1)) s2 = (s2, [], Normal tt)) by reflexivity.
  rewrite (call_bind_normal _ _ _ _ _ _ Hl).
  cbn [choicesLoop]. unfold choiceStep. rewrite Hi, Hd, call_single_choice.
  cbv zeta. cbn [fst snd app]. rewrite <- !app_assoc.
  assert (match chunk_usage json with
          | Some u => option_list (setCounters ∘ usageCounters (prompt_tokens u)
                                     <$> completion_tokens u)
          | None => []
          end = option_list (setCounters <$> primaryCounters json)) as ->; [| reflexivity].
  unfold primaryCounters. destruct (chunk_usage json) as [u|]; [| reflexivity].
  cbn. now destruct (completion_tokens u).
Qed.

(** *** Text deltas *)

Lemma parser_textDelta json s f :
  textDeltaChunk json f →
  content (accumulator (parser json s).1.1)
    = Some (default "" (content (accumulator s)) +:+ f)
  ∧ omap textOf (parser json s).1.2 = [f].
Proof.
  intros (choice & delta & Hd & Hf).
  rewrite (parser_dataChunk json s choice delta Hd), Hf.
  cbv zeta. cbn [fst snd]. rewrite call_effects, omap_app.
  pose proof (gateState_keeps json s) as K.
  pose proof (gateCalls_no_content json s) as Q.
  set (s1 := gateState json s) in *. set (t1 := gateCalls json s) in *.
  assert (E : deltaText (ContentString f) s1
              = (setAccumulator
                   (setContent (Some (default "" (strTruthy (content (accumulator s1))) +:+ f))
                      (accumulator s1)) s1, [appendText f], Normal tt)) by reflexivity.
  rewrite (bind_normal _ _ _ _ _ _ E). cbn [fst snd].
  match goal with |- context [toolCallsLoop newId ?l ?s0] =>
    destruct (toolCallsLoop_frames newId l s0) as [K2 Q2];
    destruct (toolCallsLoop newId l s0) as [[s3 t3] o3]
  end.
  cbn [fst snd] in *. unfold keeps in K, K2. simpl in K2.
  split.
  - assert (content (accumulator s3)
            = Some (default "" (strTruthy (content (accumulator s1))) +:+ f)) as ->
      by congruence.
    rewrite strTruthy_default. do 3 f_equal. congruence.
  - assert (omap textOf t1 = []) as ->.
    { apply omap_none_forall. eapply Forall_impl; [exact Q |]. now intros []. }
    assert (omap textOf t3 = []) as Ht3.
    { apply omap_none_forall. eapply Forall_impl; [exact Q2 |]. now intros []. }
    cbn [app]. change (f :: omap textOf t3 = [f]). now rewrite Ht3.
Qed.

Lemma session_textDeltas events fs s :
  Forall2 textDeltaChunk events fs →
  content (accumulator (session events s).1.1)
    = appendFragments (content (accumulator s)) fs
  ∧ omap textOf (session events s).1.2 = fs.
Proof.
  intros H. revert s. induction H as [|json f events fs Hj _ IH]; intros s.
  - split; reflexivity.
  - rewrite session_cons. cbn [fst snd]. rewrite omap_app.
    destruct (parser_textDelta json s f Hj) as [Hc Ht].
    destruct (IH (parser json s).1.1) as [IHc IHt].
    rewrite IHc, IHt, Ht, Hc. split; reflexivity.
Qed.

End Sessions.

(** C4, as amended: over any sequence of events of one streaming session,
    [setModelName] is called with the first non-empty [model] value seen,
    exactly once, and is not called at all when no event carries a non-empty
    [model]. *)
Theorem model_name_reported_once render newId (events : list ChunkResponse) :
  omap modelNameOf (processChunks render newId events freshSession).1.2
    = option_list (firstModelName events).
Proof. apply (session_modelName render newId events freshSession). Qed.

(** C4, as stated, fails: in [azureSentinelChunk; plainChunk (Some "m1") ...]
    every event carries a model field and the first value seen is [""], yet
    the one [setModelName] call is ["m1"]. *)
Lemma model_name_first_value_counterexample :
  let events := [azureSentinelChunk; plainChunk (Some "m1") [textChoice "Hi"]] in
  chunk_model <$> events = [Some ""; Some "m1"]
  ∧ omap modelNameOf (processChunks safeErrorString serverSideId events freshSession).1.2
      = ["m1"]
  ∧ omap modelNameOf (processChunks safeErrorString serverSideId events freshSession).1.2
      ≠ [""].
Proof. vm_compute. repeat split; discriminate. Qed.

(** ** Tool-call updates *)

Section ToolCalls.

Variable render : UpstreamError → option string.
Variable newId : string → nat → string.

Abbreviation parser := (createOpenAIChatCompletionsChunkParser render newId).

Lemma growArguments_nil tc : growArguments [] tc = tc.
Proof. destruct tc as [i n a]. unfold growArguments. simpl. now rewrite append_nil_r. Qed.

Lemma growArguments_app fs1 fs2 tc :
  growArguments (fs1 ++ fs2) tc = growArguments fs2 (growArguments fs1 tc).
Proof. unfold growArguments. simpl. now rewrite concat_app, append_assoc. Qed.

Lemma appendArguments_lookup i f a j :
  tool_calls (appendArguments i f a) !! j
    = (if decide (i = j) then growArguments [f] else id) <$> tool_calls a !! j.
Proof.
  unfold appendArguments. simpl. rewrite lookup_alter.
  case_decide; [now subst | now destruct (tool_calls a !! j)].
Qed.

Lemma appendArguments_shape a0 a i f :
  sameShape a0 a → sameShape a0 (appendArguments i f a).
Proof.
  intros [Hl Hs]. split; [exact Hl |]. intros j.
  rewrite appendArguments_lookup, <- Hs.
  destruct (tool_calls a !! j) as [tc|]; [| reflexivity].
  simpl. now case_decide.
Qed.

Lemma sameShape_refl a : sameShape a a.
Proof. split; reflexivity. Qed.

Lemma toolCallStep_update a0 e s :
  updateEntry a0 e → sameShape a0 (accumulator s) →
  toolCallStep newId e s =
    (match strTruthy (fn_arguments (dtc_function e)) with
     | Some f => setAccumulator (appendArguments (resolveIndex a0 e) f (accumulator s)) s
     | None => s
     end,
     (λ p, appendFunctionToolCallArgsIStr p.1 p.2) <$> argsAppendsFor a0 [e],
     Normal Continue).
Proof.
  intros (Ht & tc & Hl & Hid & Hn) [Hlen Hsh].
  assert (Hi : resolveIndex (accumulator s) e = resolveIndex a0 e)
    by (unfold resolveIndex; now rewrite Hlen).
  specialize (Hsh (resolveIndex a0 e)). rewrite Hl in Hsh.
  destruct (tool_calls (accumulator s) !! resolveIndex a0 e) as [tc'|] eqn:Hl';
    [| discriminate Hsh].
  injection Hsh as Hsh.
  unfold toolCallStep, argsAppendsFor. rewrite Ht. unfold bind at 1, get.
  rewrite Hi, Hl', Hn. cbn [omap list_omap]. rewrite Hl. cbn [mbind option_bind].
  rewrite <- Hsh in *.
  destruct (strTruthy (dtc_id e)) as [id|] eqn:Hd.
  - rewrite (Hid id eq_refl), decide_True by reflexivity.
    destruct (strTruthy (fn_arguments (dtc_function e))); reflexivity.
  - destruct (strTruthy (fn_arguments (dtc_function e))); reflexivity.
Qed.

Lemma omap_cons_app {A B} (f : A → option B) (x : A) (l : list A) :
  omap f (x :: l) = omap f [x] ++ omap f l.
Proof. change (omap f ([x] ++ l) = omap f [x] ++ omap f l). apply omap_app. Qed.

Lemma argsAppendsFor_cons a e l :
  argsAppendsFor a (e :: l) = argsAppendsFor a [e] ++ argsAppendsFor a l.
Proof. apply omap_cons_app. Qed.

Lemma fragmentsFor_cons a i e l :
  fragmentsFor a i (e :: l) = fragmentsFor a i [e] ++ fragmentsFor a i l.
Proof. apply omap_cons_app. Qed.

Lemma toolCallStep_update_lookup a0 e s i :
  tool_calls
    (accumulator
       (match strTruthy (fn_arguments (dtc_function e)) with
        | Some f => setAccumulator (appendArguments (resolveIndex a0 e) f (accumulator s)) s
        | None => s
        end)) !! i
  = growArguments (fragmentsFor a0 i [e]) <$> tool_calls (accumulator s) !! i.
Proof.
  unfold fragmentsFor. cbn [omap list_omap].
  destruct (strTruthy (fn_arguments (dtc_function e))) as [f|].
  - cbn [accumulator setAccumulator]. rewrite appendArguments_lookup.
    case_decide; [reflexivity |].
    destruct (tool_calls (accumulator s) !! i) as [tc|]; [| reflexivity].
    simpl. now rewrite growArguments_nil.
  - assert (Hnil : (if decide (resolveIndex a0 e = i) then None else None) = @None string)
      by now case_decide.
    rewrite Hnil.
    destruct (tool_calls (accumulator s) !! i) as [tc|]; [| reflexivity].
    simpl. now rewrite growArguments_nil.
Qed.

Lemma toolCallsLoop_updates a0 before s :
  Forall (updateEntry a0) before → sameShape a0 (accumulator s) →
  ∃ s',
    toolCallsLoop newId before s
      = (s', (λ p, appendFunctionToolCallArgsIStr p.1 p.2) <$> argsAppendsFor a0 before,
         Normal tt)
    ∧ sameShape a0 (accumulator s')
    ∧ keeps (λ s, (hasBegun s, hasWarned s, console s, idsIssued s,
                   content (accumulator s))) s s'
    ∧ ∀ i, tool_calls (accumulator s') !! i
           = growArguments (fragmentsFor a0 i before) <$> tool_calls (accumulator s) !! i.
Proof.
  intros H. revert s. induction H as [|e before He _ IH]; intros s Hs.
  - exists s. split; [reflexivity |]. split; [exact Hs |]. split; [reflexivity |].
    intros i. destruct (tool_calls (accumulator s) !! i) as [tc|]; [| reflexivity].
    simpl. now rewrite growArguments_nil.
  - pose proof (toolCallStep_update a0 e s He Hs) as E.
    pose proof (toolCallStep_update_lookup a0 e s) as L.
    set (s1 := match strTruthy (fn_arguments (dtc_function e)) with
               | Some f => setAccumulator
                             (appendArguments (resolveIndex a0 e) f (accumulator s)) s
               | None => s
               end) in *.
    assert (Hs1 : sameShape a0 (accumulator s1)).
    { subst s1. destruct (strTruthy (fn_arguments (dtc_function e))); [| exact Hs].
      now apply appendArguments_shape. }
    assert (K1 : keeps (λ s, (hasBegun s, hasWarned s, console s, idsIssued s,
                             content (accumulator s))) s s1).
    { subst s1. now destruct (strTruthy (fn_arguments (dtc_function e))). }
    destruct (IH s1 Hs1) as (s' & E' & Hs' & K' & L').
    exists s'. split; [| split; [exact Hs' |]; split].
    + cbn [toolCallsLoop]. rewrite (bind_normal _ _ _ _ _ _ E), E'. cbn [fst snd].
      now rewrite (argsAppendsFor_cons a0 e before), fmap_app.
    + etransitivity; eassumption.
    + intros i. rewrite L', L, (fragmentsFor_cons a0 i e before).
      destruct (tool_calls (accumulator s) !! i) as [tc|]; [| reflexivity].
      simpl. now rewrite growArguments_app.
Qed.

Lemma toolCallsLoop_updates_app a0 before rest s :
  Forall (updateEntry a0) before → sameShape a0 (accumulator s) →
  toolCallsLoop newId (before ++ rest) s =
    let r0 := toolCallsLoop newId before s in
    let r := toolCallsLoop newId rest r0.1.1 in
    (r.1.1, r0.1.2 ++ r.1.2, r.2).
Proof.
  intros H. revert s. induction H as [|e before He _ IH]; intros s Hs.
  - cbn. now destruct (toolCallsLoop newId rest s) as [[? ?] ?].
  - pose proof (toolCallStep_update a0 e s He Hs) as E.
    set (s1 := match strTruthy (fn_arguments (dtc_function e)) with
               | Some f => setAccumulator
                             (appendArguments (resolveIndex a0 e) f (accumulator s)) s
               | None => s
               end) in *.
    assert (Hs1 : sameShape a0 (accumulator s1)).
    { subst s1. destruct (strTruthy (fn_arguments (dtc_function e))); [| exact Hs].
      now apply appendArguments_shape. }
    rewrite <- app_comm_cons. cbn [toolCallsLoop].
    rewrite !(bind_normal _ _ _ _ _ _ E), (IH s1 Hs1). cbv zeta. cbn [fst snd].
    now rewrite app_assoc.
Qed.

(** *** Events whose first tool-call entries are updates *)

Lemma deltaText_run c s :
  (∀ t, c ≠ ContentOther t) →
  ∃ s' t, deltaText c s = (s', t, Normal tt)
    ∧ keeps (λ s, (idsIssued s, tool_calls (accumulator s),
                   tool_calls_length (accumulator s))) s s'
    ∧ Forall (λ c, is_Some (textOf c)) t.
Proof.
  intros Hc. destruct c as [| |text|t]; [| | | now destruct (Hc t)];
    eexists _, _; (split; [reflexivity |]); (split; [reflexivity |]);
    repeat constructor; simpl; eauto.
Qed.

Lemma dataChunk_withToolCalls tcs json choice delta :
  dataChunk json choice delta →
  dataChunk (withToolCalls tcs json)
    {| choice_index := choice_index choice;
       choice_delta := Some {| delta_content := delta_content delta;
                               delta_tool_calls := Some tcs |};
       choice_finish_reason := choice_finish_reason choice |}
    {| delta_content := delta_content delta; delta_tool_calls := Some tcs |}.
Proof.
  intros (He & Hs & Hc & Hi & Hd). repeat split; try assumption.
  unfold withToolCalls. cbn [chunk_choices]. rewrite Hc. cbn. now rewrite Hd.
Qed.

Lemma omap_argsAppendOf_calls (l : list (string * string)) :
  omap argsAppendOf ((λ p, appendFunctionToolCallArgsIStr p.1 p.2) <$> l) = l.
Proof.
  induction l as [|[id f] l IH]; [reflexivity |].
  rewrite fmap_cons, omap_cons_app, IH. reflexivity.
Qed.

Lemma parser_toolCallsChunk json s choice delta before rest :
  dataChunk json choice delta → (∀ t, delta_content delta ≠ ContentOther t) →
  default [] (delta_tool_calls delta) = before ++ rest →
  Forall (updateEntry (accumulator s)) before →
  ∃ s' t',
    parser (withToolCalls before json) s = (s', t', Normal tt)
    ∧ sameShape (accumulator s) (accumulator s')
    ∧ idsIssued s' = idsIssued s
    ∧ (∀ i, tool_calls (accumulator s') !! i
            = growArguments (fragmentsFor (accumulator s) i before)
                <$> tool_calls (accumulator s) !! i)
    ∧ omap argsAppendOf t' = argsAppendsFor (accumulator s) before
    ∧ parser json s =
        let r := call (toolCallsLoop newId rest) s' in (r.1.1, t' ++ r.1.2, r.2).
Proof.
  intros Hd Hc Hl Hb.
  pose proof (gateState_keeps json s) as K1.
  pose proof (gateCalls_no_content json s) as Q1.
  destruct (deltaText_run (delta_content delta) (gateState json s) Hc)
    as (s2 & t2 & E2 & K2 & Q2).
  unfold keeps in K1, K2. simpl in K1, K2.
  assert (Hs2 : sameShape (accumulator s) (accumulator s2)).
  { split; [congruence |]. intros i.
    assert (tool_calls (accumulator s2) = tool_calls (accumulator s)) as -> by congruence.
    reflexivity. }
  destruct (toolCallsLoop_updates (accumulator s) before s2 Hb Hs2)
    as (s' & E' & Hs' & K' & L').
  unfold keeps in K'. simpl in K'.
  exists s', (gateCalls json s ++ t2
              ++ ((λ p, appendFunctionToolCallArgsIStr p.1 p.2)
                    <$> argsAppendsFor (accumulator s) before)).
  split; [| split; [exact Hs' |]; split; [congruence |]; split; [| split]].
  - rewrite (parser_dataChunk render newId _ s _ _ (dataChunk_withToolCalls before _ _ _ Hd)).
    cbn [delta_content delta_tool_calls default].
    change (gateState (withToolCalls before json) s) with (gateState json s).
    change (gateCalls (withToolCalls before json) s) with (gateCalls json s).
    change (id before) with before.
    unfold call. rewrite (bind_normal _ _ _ _ _ _ E2), E'. reflexivity.
  - intros i. rewrite L'.
    assert (tool_calls (accumulator s2) = tool_calls (accumulator s)) as -> by congruence.
    reflexivity.
  - rewrite !omap_app, omap_argsAppendOf_calls.
    rewrite (omap_none_forall argsAppendOf (gateCalls json s)),
      (omap_none_forall argsAppendOf t2); [reflexivity | |].
    + eapply Forall_impl; [exact Q2 |]. now intros [] [? ?].
    + eapply Forall_impl; [exact Q1 |]. now intros [].
  - rewrite (parser_dataChunk render newId json s choice delta Hd), Hl.
    cbv zeta. unfold call at 1 2 3.
    rewrite (bind_normal _ _ _ _ _ _ E2).
    rewrite (toolCallsLoop_updates_app (accumulator s) before rest s2 Hb Hs2), E'.
    cbv zeta. cbn [fst snd]. unfold call.
    destruct (toolCallsLoop newId rest s') as [[s3 t3] [[]| |err]]; cbn [fst snd];
      now rewrite <- !app_assoc.
Qed.

(** *** Creation and rejection *)

Lemma toolCallStep_create e s :
  badToolCallType (dtc_type e) = None →
  tool_calls (accumulator s) !! resolveIndex (accumulator s) e = None →
  ∃ s', toolCallStep newId e s
        = (s', [startFunctionToolCall (tc_id (createdToolCall newId (idsIssued s) e))
                  (tc_name (createdToolCall newId (idsIssued s) e)) incr_str
                  (tc_arguments (createdToolCall newId (idsIssued s) e))],
           Normal Break)
    ∧ accumulator s'
      = arrayStore (accumulator s) (resolveIndex (accumulator s) e)
          (createdToolCall newId (idsIssued s) e).
Proof.
  intros Ht Hl. unfold toolCallStep, createdToolCall. rewrite Ht.
  unfold bind at 1, get. rewrite Hl.
  destruct (strTruthy (dtc_id e)) as [id|]; eexists; split; reflexivity.
Qed.

Lemma toolCallStep_id_change e s tc id :
  badToolCallType (dtc_type e) = None →
  tool_calls (accumulator s) !! resolveIndex (accumulator s) e = Some tc →
  strTruthy (dtc_id e) = Some id → id ≠ tc_id tc →
  toolCallStep newId e s = (s, [], Thrown (UnexpectedToolCallIdChange id)).
Proof.
  intros Ht Hl Hid Hne. unfold toolCallStep. rewrite Ht.
  unfold bind at 1, get. rewrite Hl, Hid, decide_False by exact Hne. reflexivity.
Qed.

Lemma toolCallStep_name_change e s tc name :
  badToolCallType (dtc_type e) = None →
  tool_calls (accumulator s) !! resolveIndex (accumulator s) e = Some tc →
  (∀ id, strTruthy (dtc_id e) = Some id → id = tc_id tc) →
  strTruthy (fn_name (dtc_function e)) = Some name →
  toolCallStep newId e s = (s, [], Thrown (UnexpectedToolCallNameChange name)).
Proof.
  intros Ht Hl Hid Hn. unfold toolCallStep. rewrite Ht.
  unfold bind at 1, get. rewrite Hl, Hn.
  destruct (strTruthy (dtc_id e)) as [id|]; [| reflexivity].
  rewrite (Hid id eq_refl), decide_True by reflexivity. reflexivity.
Qed.

Lemma resolveIndex_shape a0 a e : sameShape a0 a → resolveIndex a e = resolveIndex a0 e.
Proof. intros [Hl _]. unfold resolveIndex. now rewrite Hl. Qed.

Lemma sameShape_lookup_None a0 a i :
  sameShape a0 a → tool_calls a0 !! i = None → tool_calls a !! i = None.
Proof.
  intros [_ Hs] H. specialize (Hs i). rewrite H in Hs.
  now destruct (tool_calls a !! i).
Qed.

Lemma sameShape_lookup_Some a0 a i tc :
  sameShape a0 a → tool_calls a0 !! i = Some tc →
  ∃ tc', tool_calls a !! i = Some tc' ∧ tc_id tc' = tc_id tc.
Proof.
  intros [_ Hs] H. specialize (Hs i). rewrite H in Hs.
  destruct (tool_calls a !! i) as [tc'|]; [| discriminate Hs].
  exists tc'. split; [reflexivity | now injection Hs].
Qed.

Lemma sameShape_trans a b c : sameShape a b → sameShape b c → sameShape a c.
Proof.
  intros [Hl1 Hs1] [Hl2 Hs2]. split; [congruence |]. intros i. now rewrite Hs2, Hs1.
Qed.

Lemma updateEntry_shape a0 a e : sameShape a0 a → updateEntry a0 e → updateEntry a e.
Proof.
  intros Hs (Ht & tc & Hl & Hid & Hn). split; [exact Ht |].
  rewrite (resolveIndex_shape a0 a e Hs).
  destruct (sameShape_lookup_Some a0 a _ tc Hs Hl) as (tc' & Hl' & Hi).
  exists tc'. split; [exact Hl' |]. split; [| exact Hn].
  intros id H. rewrite Hi. now apply Hid.
Qed.

Lemma fragmentsFor_shape a0 a i tcs :
  sameShape a0 a → fragmentsFor a i tcs = fragmentsFor a0 i tcs.
Proof.
  intros Hs. induction tcs as [|e tcs IH]; [reflexivity |].
  rewrite (fragmentsFor_cons a), (fragmentsFor_cons a0), IH. f_equal.
  unfold fragmentsFor. cbn [omap list_omap]. now rewrite (resolveIndex_shape a0 a e Hs).
Qed.

Lemma argsAppendsFor_shape a0 a tcs :
  sameShape a0 a → argsAppendsFor a tcs = argsAppendsFor a0 tcs.
Proof.
  intros Hs. induction tcs as [|e tcs IH]; [reflexivity |].
  rewrite (argsAppendsFor_cons a), (argsAppendsFor_cons a0), IH. f_equal.
  unfold argsAppendsFor. cbn [omap list_omap]. rewrite (resolveIndex_shape a0 a e Hs).
  destruct (tool_calls a0 !! resolveIndex a0 e) as [tc|] eqn:Hl.
  - destruct (sameShape_lookup_Some a0 a _ tc Hs Hl) as (tc' & -> & Hi).
    cbn. now rewrite Hi.
  - now rewrite (sameShape_lookup_None a0 a _ Hs Hl).
Qed.

Lemma parser_creation json s choice delta before e after :
  dataChunk json choice delta → (∀ t, delta_content delta ≠ ContentOther t) →
  default [] (delta_tool_calls delta) = before ++ e :: after →
  Forall (updateEntry (accumulator s)) before →
  badToolCallType (dtc_type e) = None →
  tool_calls (accumulator s) !! resolveIndex (accumulator s) e = None →
  (parser json s).2 = Normal tt
  ∧ (parser (withToolCalls before json) s).2 = Normal tt
  ∧ accumulator (parser json s).1.1
    = arrayStore (accumulator (parser (withToolCalls before json) s).1.1)
        (resolveIndex (accumulator s) e) (createdToolCall newId (idsIssued s) e)
  ∧ (parser json s).1.2
    = (parser (withToolCalls before json) s).1.2
      ++ [startFunctionToolCall (tc_id (createdToolCall newId (idsIssued s) e))
            (tc_name (createdToolCall newId (idsIssued s) e)) incr_str
            (tc_arguments (createdToolCall newId (idsIssued s) e))].
Proof.
  intros Hd Hc Hl Hb Ht Hn.
  destruct (parser_toolCallsChunk json s choice delta before (e :: after) Hd Hc Hl Hb)
    as (s' & t' & -> & Hs' & Hi & _ & _ & ->).
  destruct (toolCallStep_create e s') as (s'' & E & Ha).
  { exact Ht. }
  { rewrite (resolveIndex_shape _ _ e Hs'). now apply (sameShape_lookup_None _ _ _ Hs'). }
  rewrite Hi in E, Ha. rewrite (resolveIndex_shape _ _ e Hs') in Ha.
  cbv zeta. unfold call. cbn [toolCallsLoop].
  rewrite (bind_normal _ _ _ _ _ _ E). cbn [fst snd].
  split; [reflexivity |]. split; [reflexivity |]. split; [exact Ha |].
  now rewrite app_nil_r.
Qed.

Lemma parser_rejection json s choice delta before e after tc :
  dataChunk json choice delta → (∀ t, delta_content delta ≠ ContentOther t) →
  default [] (delta_tool_calls delta) = before ++ e :: after →
  Forall (updateEntry (accumulator s)) before →
  tool_calls (accumulator s) !! resolveIndex (accumulator s) e = Some tc →
  (∃ id, strTruthy (dtc_id e) = Some id ∧ id ≠ tc_id tc)
  ∨ is_Some (strTruthy (fn_name (dtc_function e))) →
  (∃ err, (parser json s).2 = Thrown err)
  ∧ (parser json s).1 = (parser (withToolCalls before json) s).1.
Proof.
  intros Hd Hc Hl Hb Htc Hbad.
  destruct (parser_toolCallsChunk json s choice delta before (e :: after) Hd Hc Hl Hb)
    as (s' & t' & -> & Hs' & _ & _ & _ & ->).
  destruct (sameShape_lookup_Some _ _ _ tc Hs' Htc) as (tc' & Htc' & Hid).
  rewrite <- (resolveIndex_shape _ _ e Hs') in Htc'.
  assert (∃ err, toolCallStep newId e s' = (s', [], Thrown err)) as (err & E).
  { destruct (badToolCallType (dtc_type e)) as [t|] eqn:Ht.
    { exists (UnexpectedToolCallType t). unfold toolCallStep. now rewrite Ht. }
    destruct (strTruthy (dtc_id e)) as [id|] eqn:Hi.
    - destruct (decide (id = tc_id tc')) as [-> | Hne].
      + destruct Hbad as [(id & Hid' & Hne) | [name Hname]]; [congruence |].
        exists (UnexpectedToolCallNameChange name).
        apply (toolCallStep_name_change e s' tc' name Ht Htc'); [| exact Hname].
        intros id. rewrite Hi. congruence.
      + exists (UnexpectedToolCallIdChange id).
        now apply (toolCallStep_id_change e s' tc' id).
    - destruct Hbad as [(id & Hid' & _) | [name Hname]]; [congruence |].
      exists (UnexpectedToolCallNameChange name).
      apply (toolCallStep_name_change e s' tc' name Ht Htc'); [| exact Hname].
      intros id. rewrite Hi. congruence. }
  cbv zeta. unfold call. cbn [toolCallsLoop].
  rewrite (bind_thrown _ _ _ _ _ _ E). cbn [fst snd].
  split; [now exists err | now rewrite app_nil_r].
Qed.

Lemma chunkToolCalls_dataChunk json choice delta :
  dataChunk json choice delta → chunkToolCalls json = default [] (delta_tool_calls delta).
Proof.
  intros (_ & _ & Hc & _ & Hd). unfold chunkToolCalls. rewrite Hc. cbn. rewrite Hd. cbn.
  now rewrite !app_nil_r.
Qed.

(** *** Applied entries *)

Lemma isUpdateEntry_spec a e : isUpdateEntry a e = true ↔ updateEntry a e.
Proof.
  unfold isUpdateEntry, updateEntry. rewrite andb_true_iff, bool_decide_eq_true.
  destruct (tool_calls a !! resolveIndex a e) as [tc|].
  - rewrite andb_true_iff, !bool_decide_eq_true. split.
    + intros (Ht & Hid & Hn). split; [exact Ht |]. exists tc. split; [reflexivity |].
      split; [| exact Hn]. intros id Hi. destruct Hid as [Hid | Hid]; congruence.
    + intros (Ht & tc' & Htc & Hid & Hn). injection Htc as <-.
      split; [exact Ht |]. split; [| exact Hn].
      destruct (strTruthy (dtc_id e)) as [id|]; [right | now left].
      now rewrite (Hid id eq_refl).
  - split; [intros [_ H]; discriminate H |].
    intros (_ & tc & Htc & _). discriminate Htc.
Qed.

Lemma updatesPrefix_split a tcs :
  Forall (updateEntry a) (updatesPrefix a tcs)
  ∧ (tcs = updatesPrefix a tcs ++ []
     ∨ ∃ e after, tcs = updatesPrefix a tcs ++ e :: after ∧ isUpdateEntry a e = false).
Proof.
  induction tcs as [|e tcs [IH1 IH2]]; [split; [constructor | now left] |].
  cbn [updatesPrefix]. destruct (isUpdateEntry a e) eqn:He.
  - split; [constructor; [now apply isUpdateEntry_spec | exact IH1] |].
    destruct IH2 as [IH2 | (e' & after & IH2 & He')].
    + left. cbn. now rewrite <- IH2.
    + right. exists e', after. split; [cbn; now rewrite <- IH2 | exact He'].
  - split; [constructor |]. right. exists e, tcs. split; [reflexivity | exact He].
Qed.

(** The first entry that is not an update ends the loop: it creates a tool
    call at a free index, or raises; the recorded tool calls stay as they
    are and no fragment is sent. *)
Lemma toolCallStep_stop a0 e s :
  sameShape a0 (accumulator s) → isUpdateEntry a0 e = false →
  ∃ s' t o, toolCallStep newId e s = (s', t, o)
    ∧ o ≠ Normal Continue
    ∧ omap argsAppendOf t = []
    ∧ ∀ i tc, tool_calls (accumulator s) !! i = Some tc →
              tool_calls (accumulator s') !! i = Some tc.
Proof.
  intros Hs Hu.
  assert (Hn : ¬ updateEntry (accumulator s) e).
  { intros H. apply (updateEntry_shape (accumulator s) a0) in H.
    - apply isUpdateEntry_spec in H. congruence.
    - destruct Hs as [Hl Hi]. split; [now symmetry | intros i; now symmetry]. }
  destruct (badToolCallType (dtc_type e)) as [ty|] eqn:Ht.
  { exists s, [], (Thrown (UnexpectedToolCallType ty)).
    unfold toolCallStep. rewrite Ht. repeat split; [discriminate | auto]. }
  destruct (tool_calls (accumulator s) !! resolveIndex (accumulator s) e) as [tc|] eqn:Hl.
  - destruct (strTruthy (dtc_id e)) as [id|] eqn:Hid.
    + destruct (decide (id = tc_id tc)) as [-> | Hne].
      * destruct (strTruthy (fn_name (dtc_function e))) as [name|] eqn:Hname.
        -- exists s, [], (Thrown (UnexpectedToolCallNameChange name)).
           rewrite (toolCallStep_name_change e s tc name Ht Hl); [| congruence | exact Hname].
           repeat split; [discriminate | auto].
        -- destruct Hn. split; [exact Ht |]. exists tc. split; [exact Hl |].
           split; [congruence | exact Hname].
      * exists s, [], (Thrown (UnexpectedToolCallIdChange id)).
        rewrite (toolCallStep_id_change e s tc id Ht Hl Hid Hne).
        repeat split; [discriminate | auto].
    + destruct (strTruthy (fn_name (dtc_function e))) as [name|] eqn:Hname.
      * exists s, [], (Thrown (UnexpectedToolCallNameChange name)).
        rewrite (toolCallStep_name_change e s tc name Ht Hl); [| congruence | exact Hname].
        repeat split; [discriminate | auto].
      * destruct Hn. split; [exact Ht |]. exists tc. split; [exact Hl |].
        split; [congruence | exact Hname].
  - destruct (toolCallStep_create e s Ht Hl) as (s' & E & Ha).
    eexists s', _, _. split; [exact E |]. split; [discriminate |]. split; [reflexivity |].
    intros i tc Hi. rewrite Ha. unfold arrayStore. cbn [tool_calls].
    rewrite lookup_insert_ne; [exact Hi | congruence].
Qed.

Lemma toolCallsLoop_stop a0 e after s :
  sameShape a0 (accumulator s) → isUpdateEntry a0 e = false →
  omap argsAppendOf (toolCallsLoop newId (e :: after) s).1.2 = []
  ∧ ∀ i tc, tool_calls (accumulator s) !! i = Some tc →
            tool_calls (accumulator (toolCallsLoop newId (e :: after) s).1.1) !! i = Some tc.
Proof.
  intros Hs Hu. destruct (toolCallStep_stop a0 e s Hs Hu) as (s' & t & o & E & Ho & Ht & Hk).
  cbn [toolCallsLoop]. unfold bind. rewrite E.
  destruct o as [[|]| |err]; [now destruct Ho | | |]; unfold ret; cbn [fst snd];
    rewrite ?app_nil_r; split; assumption.
Qed.

(** *** Events that do not reach the tool-call loop *)

Lemma omap_argsAppendOf_models t :
  Forall (λ c, is_Some (modelNameOf c)) t → omap argsAppendOf t = [].
Proof.
  intros H. apply omap_none_forall. eapply Forall_impl; [exact H |].
  now intros [] [? ?].
Qed.

Lemma parser_error_quiet json s e :
  chunk_error json = Some e → quiet (parser json s).1 s.
Proof.
  intros He. unfold quiet, createOpenAIChatCompletionsChunkParser.
  destruct (reportModel_run json s) as (s1 & t1 & E1 & K1 & Q1).
  rewrite (call_bind_normal _ _ _ _ _ _ E1). cbn [fst snd].
  unfold upstreamError. rewrite He. unfold call, bind, pt, return_. cbn [fst snd].
  unfold keeps in K1. simpl in K1.
  split; [congruence |].
  rewrite omap_app, (omap_argsAppendOf_models _ Q1). reflexivity.
Qed.

Lemma parser_sentinel_quiet json s :
  chunk_error json = None → isAzureSentinel json = true → quiet (parser json s).1 s.
Proof.
  intros He Hs. unfold quiet, createOpenAIChatCompletionsChunkParser.
  destruct (reportModel_run json s) as (s1 & t1 & E1 & K1 & Q1).
  rewrite (call_bind_normal _ _ _ _ _ _ E1). cbn [fst snd].
  unfold upstreamError. rewrite He, Hs.
  assert (Hr : @ret Session unit tt s1 = (s1, [], Normal tt)) by reflexivity.
  rewrite (call_bind_normal _ _ _ _ _ _ Hr).
  destruct (warnOnce_run json s1) as (s2 & E2 & K2).
  rewrite (call_bind_normal _ _ _ _ _ _ E2).
  unfold call, bind, when, return_. cbn [fst snd].
  unfold keeps in K1, K2. simpl in K1, K2.
  split; [congruence |].
  rewrite omap_app, (omap_argsAppendOf_models _ Q1). reflexivity.
Qed.

Lemma choices_quiet choices s :
  (∀ choice delta, choices = [choice] →
     badChoiceIndex (choice_index choice) = None → choice_delta choice = Some delta →
     ∃ t, delta_content delta = ContentOther t) →
  quiet ((when (negb (bool_decide (length choices = 1%nat)))
            (throw (ExpectedOneCompletion (length choices))) ;;
          choicesLoop newId choices) s).1 s.
Proof.
  intros Hq. destruct choices as [|choice [|choice2 rest]]; [now split | | now split].
  specialize (Hq choice). unfold quiet, bind, when, ret. cbn [negb bool_decide length].
  cbn [choicesLoop]. unfold choiceStep, bind.
  destruct (badChoiceIndex (choice_index choice)) as [i|]; [now split |].
  destruct (choice_delta choice) as [delta|]; [| now split].
  destruct (Hq delta eq_refl eq_refl eq_refl) as [t ->]. now split.
Qed.

Lemma primaryUsage_no_append json :
  omap argsAppendOf
    match chunk_usage json with
    | Some u => option_list (setCounters ∘ usageCounters (prompt_tokens u)
                               <$> completion_tokens u)
    | None => []
    end = [].
Proof. destruct (chunk_usage json) as [u|]; [now destruct (completion_tokens u) | reflexivity]. Qed.

Lemma parser_choices_quiet json s :
  chunk_error json = None → isAzureSentinel json = false →
  (∀ choice delta, chunk_choices json = [choice] →
     badChoiceIndex (choice_index choice) = None → choice_delta choice = Some delta →
     ∃ t, delta_content delta = ContentOther t) →
  quiet (parser json s).1 s.
Proof.
  intros He Hs Hq. unfold quiet.
  destruct (parser_gates render newId json s He Hs) as (s1 & t1 & K1 & Q1 & ->).
  unfold keeps in K1. simpl in K1.
  cbv zeta. cbn [fst snd]. rewrite omap_app, (omap_argsAppendOf_models _ Q1), call_effects.
  cbn [app].
  assert (accumulator s1 = accumulator s) as <- by congruence.
  destruct (decide (usageOnlyChunk json)) as [[[u Hu] Hc] | Hn].
  - rewrite (bind_returned _ _ _ _ _ (primaryUsage_only json s1 u Hu Hc)).
    cbn [fst snd]. split; [reflexivity |]. now destruct (completion_tokens u).
  - rewrite (bind_normal _ _ _ _ _ _ (primaryUsage_run json s1 Hn)). cbn [fst snd].
    rewrite (bind_normal _ _ _ _ _ _ (groqUsage_run json s1)). cbn [fst snd].
    rewrite !omap_app, primaryUsage_no_append.
    assert (omap argsAppendOf
              (option_list (setCounters ∘ groqCounters
                              <$> (chunk_x_groq json ≫= xgroq_usage))) = []) as ->
      by now destruct (chunk_x_groq json ≫= xgroq_usage).
    cbn [app]. exact (choices_quiet _ s1 Hq).
Qed.

Lemma quiet_applied json s :
  loopEntries json = [] → quiet (parser json s).1 s →
  (∀ i tc, tool_calls (accumulator s) !! i = Some tc →
     tool_calls (accumulator (parser json s).1.1) !! i
       = Some (growArguments
                 (fragmentsFor (accumulator s) i (appliedEntries (accumulator s) json)) tc))
  ∧ omap argsAppendOf (parser json s).1.2
    = argsAppendsFor (accumulator s) (appliedEntries (accumulator s) json).
Proof.
  intros Hl [Hk Ht]. unfold appliedEntries. rewrite Hl. cbn [updatesPrefix].
  split; [| exact Ht].
  intros i tc Hi. rewrite Hk, Hi. cbn. now rewrite growArguments_nil.
Qed.

(** An event changes a recorded tool call by the fragments its applied
    entries address to it, and sends exactly the fragments of its applied
    entries. *)
Lemma parser_applied json s :
  (∀ i tc, tool_calls (accumulator s) !! i = Some tc →
     tool_calls (accumulator (parser json s).1.1) !! i
       = Some (growArguments
                 (fragmentsFor (accumulator s) i (appliedEntries (accumulator s) json)) tc))
  ∧ omap argsAppendOf (parser json s).1.2
    = argsAppendsFor (accumulator s) (appliedEntries (accumulator s) json).
Proof.
  destruct (chunk_error json) as [err|] eqn:He.
  { apply quiet_applied; [| now apply (parser_error_quiet json s err)].
    unfold loopEntries. now rewrite He. }
  destruct (isAzureSentinel json) eqn:Hs.
  { apply quiet_applied; [| now apply parser_sentinel_quiet].
    unfold loopEntries. now rewrite He, Hs. }
  assert (Hdata : (∃ choice delta, dataChunk json choice delta
                     ∧ (∀ t, delta_content delta ≠ ContentOther t))
                  ∨ (loopEntries json = []
                     ∧ ∀ choice delta, chunk_choices json = [choice] →
                         badChoiceIndex (choice_index choice) = None →
                         choice_delta choice = Some delta →
                         ∃ t, delta_content delta = ContentOther t)).
  { unfold loopEntries, dataChunk. rewrite He, Hs.
    destruct (chunk_choices json) as [|choice [|choice2 rest]];
      [right; split; [reflexivity | discriminate] | | right; split; [reflexivity | discriminate]].
    destruct (badChoiceIndex (choice_index choice)) as [i|] eqn:Hi.
    { right. split; [reflexivity |]. intros c d [= <-]. congruence. }
    destruct (choice_delta choice) as [delta|] eqn:Hd.
    2: { right. split; [reflexivity |]. intros c d [= <-]. congruence. }
    destruct (delta_content delta) as [| |text|t] eqn:Hk.
    4: { right. split; [reflexivity |]. intros c d [= <-] _ Hd'. rewrite Hd in Hd'.
         injection Hd' as <-. now exists t. }
    all: left; exists choice, delta; (split; [now repeat split |]);
      intros t; rewrite Hk; discriminate. }
  destruct Hdata as [(choice & delta & Hd & Hk) | [Hl Hq]].
  2: { apply quiet_applied; [exact Hl | now apply parser_choices_quiet]. }
  assert (Hl : loopEntries json = default [] (delta_tool_calls delta)).
  { destruct Hd as (_ & _ & Hc & Hi & Hdl). unfold loopEntries.
    rewrite He, Hs, Hc, Hi, Hdl.
    destruct (delta_content delta) as [| | |t] eqn:Hct; try reflexivity.
    now destruct (Hk t). }
  unfold appliedEntries. rewrite Hl.
  set (tcs := default [] (delta_tool_calls delta)) in *.
  destruct (updatesPrefix_split (accumulator s) tcs) as [Hb Hsplit].
  set (before := updatesPrefix (accumulator s) tcs) in *.
  destruct Hsplit as [Hsp | (e & after & Hsp & Hne)].
  - destruct (parser_toolCallsChunk json s choice delta before [] Hd Hk Hsp Hb)
      as (s' & t' & _ & _ & _ & L & T & ->).
    cbv zeta. cbn [fst snd toolCallsLoop]. unfold call, ret. cbn [fst snd].
    rewrite app_nil_r. split; [| exact T].
    intros i tc Hi. now rewrite L, Hi.
  - destruct (parser_toolCallsChunk json s choice delta before (e :: after) Hd Hk Hsp Hb)
      as (s' & t' & _ & Hs' & _ & L & T & ->).
    destruct (toolCallsLoop_stop (accumulator s) e after s' Hs' Hne) as [Ta Ka].
    cbv zeta. cbn [fst snd]. rewrite call_effects, omap_app, Ta, app_nil_r.
    split; [| exact T].
    intros i tc Hi. apply Ka. now rewrite L, Hi.
Qed.

Lemma session_applied events s :
  (∀ i tc, tool_calls (accumulator s) !! i = Some tc →
     tool_calls (accumulator (processChunks render newId events s).1.1) !! i
       = Some (growArguments (appliedFragments render newId i events s) tc))
  ∧ omap argsAppendOf (processChunks render newId events s).1.2
    = appliedAppends render newId events s.
Proof.
  revert s. induction events as [|json events IH]; intros s.
  - split; [| reflexivity]. intros i tc Hi. cbn. now rewrite growArguments_nil.
  - rewrite session_cons. cbn [fst snd appliedFragments appliedAppends].
    destruct (parser_applied json s) as [L1 T1].
    destruct (IH (parser json s).1.1) as [L T].
    split.
    + intros i tc Hi. rewrite (L i _ (L1 i tc Hi)). now rewrite growArguments_app.
    + now rewrite omap_app, T1, T.
Qed.

End ToolCalls.



(** ** Usage accounting *)

(** C5, as amended: an event with no upstream error that is not the sentinel
    and whose usage block defines [completion_tokens] reports counters to the
    sink, first among its counters: [chatOut] is [completion_tokens] and
    [chatIn] is [prompt_tokens], or [-1] when that is absent or zero. *)
Theorem primary_usage_reported render newId json s u c :
  chunk_error json = None → isAzureSentinel json = false →
  chunk_usage json = Some u → completion_tokens u = Some c →
  head (omap countersOf (createOpenAIChatCompletionsChunkParser render newId json s).1.2)
    = Some {| chatIn := Some (numOr (prompt_tokens u) (-1)); chatOut := Some c;
              chatOutRate := None; chatTimeInner := None |}.
Proof. intros He Hs Hu Hc. now apply parser_primary_counters. Qed.

Lemma primary_usage_reported_witness :
  head (omap countersOf
          (createOpenAIChatCompletionsChunkParser safeErrorString serverSideId
             (statsChunk (Some {| prompt_tokens := Some 10; completion_tokens := Some 20 |})
                None [])
             freshSession).1.2)
    = Some {| chatIn := Some 10; chatOut := Some 20;
              chatOutRate := None; chatTimeInner := None |}.
Proof.
  apply (primary_usage_reported safeErrorString serverSideId
           (statsChunk (Some {| prompt_tokens := Some 10; completion_tokens := Some 20 |})
              None [])
           freshSession {| prompt_tokens := Some 10; completion_tokens := Some 20 |} 20);
    reflexivity.
Defined.

(** C5, as stated, fails: an event whose usage block has [prompt_tokens] but
    no [completion_tokens] makes no [setCounters] call. *)
Lemma primary_usage_counterexample :
  let json := statsChunk (Some {| prompt_tokens := Some 10; completion_tokens := None |})
                None [textChoice "Hi"] in
  is_Some (chunk_usage json)
  ∧ createOpenAIChatCompletionsChunkParser safeErrorString serverSideId json freshSession
    = ({| hasBegun := false; hasWarned := false;
          accumulator := {| content := Some "Hi"; tool_calls := ∅; tool_calls_length := 0 |};
          idsIssued := 0; console := [] |},
       [appendText "Hi"], Normal tt)
  ∧ omap countersOf
      (createOpenAIChatCompletionsChunkParser safeErrorString serverSideId json
         freshSession).1.2 = [].
Proof. vm_compute. split; [eauto | split; reflexivity]. Qed.

(** C10: when the usage block defines [completion_tokens] and its
    [prompt_tokens] is absent or zero, the input-token counter reported to the
    sink is [-1]. *)
Theorem primary_usage_missing_prompt render newId json s u c :
  chunk_error json = None → isAzureSentinel json = false →
  chunk_usage json = Some u → completion_tokens u = Some c →
  prompt_tokens u = None ∨ prompt_tokens u = Some 0 →
  head (omap countersOf (createOpenAIChatCompletionsChunkParser render newId json s).1.2)
    = Some {| chatIn := Some (-1); chatOut := Some c;
              chatOutRate := None; chatTimeInner := None |}.
Proof.
  intros He Hs Hu Hc Hp.
  rewrite (parser_primary_counters render newId json s u c He Hs Hu Hc).
  unfold usageCounters. now destruct Hp as [-> | ->].
Qed.

Lemma primary_usage_missing_prompt_witness :
  head (omap countersOf
          (createOpenAIChatCompletionsChunkParser safeErrorString serverSideId
             (statsChunk (Some {| prompt_tokens := Some 0; completion_tokens := Some 20 |})
                None [])
             freshSession).1.2)
    = Some {| chatIn := Some (-1); chatOut := Some 20;
              chatOutRate := None; chatTimeInner := None |}.
Proof.
  apply (primary_usage_missing_prompt safeErrorString serverSideId
           (statsChunk (Some {| prompt_tokens := Some 0; completion_tokens := Some 20 |})
              None [])
           freshSession {| prompt_tokens := Some 0; completion_tokens := Some 20 |} 20);
    try reflexivity.
  right. reflexivity.
Defined.

(** C6, as amended: an event with no upstream error that is not the
    sentinel and not the final stats-only event (usage block and no choices)
    reports the alternate envelope's input tokens, output tokens, optional
    output rate and completion time as counters, after the primary block's
    counters if any: whether or not the primary block is present or defines
    [completion_tokens], and whatever the number of choices, also when the
    choice count then raises. *)
Theorem groq_usage_reported render newId json s g :
  chunk_error json = None → isAzureSentinel json = false → ¬ usageOnlyChunk json →
  chunk_x_groq json ≫= xgroq_usage = Some g →
  omap countersOf (createOpenAIChatCompletionsChunkParser render newId json s).1.2
    = option_list (primaryCounters json)
      ++ [ {| chatIn := Some (groq_prompt_tokens g);
              chatOut := Some (groq_completion_tokens g);
              chatOutRate := groqOutRate (groq_completion_tokens g) (groq_completion_time g);
              chatTimeInner := Some (groq_completion_time g) |} ].
Proof.
  intros He Hs Hn Hg. rewrite parser_counters by assumption. now rewrite Hg.
Qed.

Lemma groq_usage_reported_witness :
  omap countersOf
    (createOpenAIChatCompletionsChunkParser safeErrorString serverSideId
       (statsChunk None
          (Some {| groq_prompt_tokens := 3; groq_completion_tokens := 17;
                   groq_completion_time := 1.088 |})
          [])
       freshSession).1.2
    = [ {| chatIn := Some 3; chatOut := Some 17; chatOutRate := Some 15.62%float;
           chatTimeInner := Some 1.088%float |} ].
Proof.
  apply (groq_usage_reported safeErrorString serverSideId
           (statsChunk None
              (Some {| groq_prompt_tokens := 3; groq_completion_tokens := 17;
                       groq_completion_time := 1.088 |})
              [])
           freshSession
           {| groq_prompt_tokens := 3; groq_completion_tokens := 17;
              groq_completion_time := 1.088 |}); try reflexivity.
  intros [[u Hu] _]. discriminate Hu.
Defined.

(** C6, as stated, fails: in the final stats-only event the handler returns
    after the primary block, so the alternate envelope is not reported. *)
Lemma groq_usage_counterexample :
  let g := {| groq_prompt_tokens := 3; groq_completion_tokens := 7;
              groq_completion_time := 0.3 |} in
  let json := statsChunk (Some {| prompt_tokens := Some 10; completion_tokens := Some 20 |})
                (Some g) [] in
  chunk_x_groq json ≫= xgroq_usage = Some g
  ∧ (createOpenAIChatCompletionsChunkParser safeErrorString serverSideId json
       freshSession).1.2
    = [setCounters {| chatIn := Some 10; chatOut := Some 20;
                      chatOutRate := None; chatTimeInner := None |}]
  ∧ setCounters (groqCounters g)
    ∉ (createOpenAIChatCompletionsChunkParser safeErrorString serverSideId json
         freshSession).1.2.
Proof.
  cbv zeta. split; [reflexivity |]. split; [reflexivity |].
  intros H. vm_compute in H. apply list_elem_of_singleton in H. discriminate H.
Qed.

(** ** Choice count *)

Lemma parserNS_choice_count json out :
  length (response_choices json) ≠ 1%nat →
  (createOpenAIChatCompletionsParserNS json out).2
    = Thrown (ExpectedOneCompletion (length (response_choices json))).
Proof.
  intros Hn. unfold createOpenAIChatCompletionsParserNS, call, bind.
  rewrite (bool_decide_eq_false_2 _ Hn).
  destruct (response_error json), (strTruthy (response_warning json)),
    (strTruthy (response_model json)), (response_usage json); reflexivity.
Qed.

Lemma parser_choice_count render newId json s :
  chunk_error json = None → isAzureSentinel json = false →
  length (chunk_choices json) ≠ 1%nat → ¬ usageOnlyChunk json →
  (createOpenAIChatCompletionsChunkParser render newId json s).2
    = Thrown (ExpectedOneCompletion (length (chunk_choices json))).
Proof.
  intros He Hs Hn Hu.
  destruct (parser_gates render newId json s He Hs) as (s1 & t1 & _ & _ & ->).
  cbv zeta. cbn [snd]. unfold call.
  rewrite (bind_normal _ _ _ _ _ _ (primaryUsage_run json s1 Hu)). cbn [fst snd].
  rewrite (bind_normal _ _ _ _ _ _ (groqUsage_run json s1)). cbn [fst snd].
  unfold bind at 1. rewrite (bool_decide_eq_false_2 _ Hn). reflexivity.
Qed.

(** C7, as amended: a streaming event with no upstream error that is not the
    sentinel and not the final stats-only event raises a fatal error when its
    choice list has 0 or 2+ entries; a non-streaming response whose choice
    count is not 1 raises a fatal error. *)
Theorem single_choice_invariant :
  (∀ render newId json s,
     chunk_error json = None → isAzureSentinel json = false →
     length (chunk_choices json) ≠ 1%nat → ¬ usageOnlyChunk json →
     (createOpenAIChatCompletionsChunkParser render newId json s).2
       = Thrown (ExpectedOneCompletion (length (chunk_choices json))))
  ∧ (∀ json out,
       length (response_choices json) ≠ 1%nat →
       (createOpenAIChatCompletionsParserNS json out).2
         = Thrown (ExpectedOneCompletion (length (response_choices json)))).
Proof. split; [apply parser_choice_count | apply parserNS_choice_count]. Qed.

Lemma single_choice_invariant_witness :
  (createOpenAIChatCompletionsChunkParser safeErrorString serverSideId
     (plainChunk (Some "m1") [textChoice "a"; textChoice "b"]) freshSession).2
    = Thrown (ExpectedOneCompletion 2)
  ∧ (createOpenAIChatCompletionsParserNS (plainResponse []) []).2
    = Thrown (ExpectedOneCompletion 0).
Proof.
  split.
  - apply (proj1 single_choice_invariant safeErrorString serverSideId
             (plainChunk (Some "m1") [textChoice "a"; textChoice "b"]) freshSession);
      [reflexivity | reflexivity | discriminate | intros [[u Hu] _]; discriminate Hu].
  - apply (proj2 single_choice_invariant (plainResponse []) []). discriminate.
Defined.

(** C7, as stated, fails: the sentinel event has an empty choice list and no
    usage block, and the handler returns without a fatal error and without a
    sink call. *)
Lemma single_choice_counterexample :
  chunk_choices azureSentinelChunk = [] ∧ chunk_usage azureSentinelChunk = None
  ∧ createOpenAIChatCompletionsChunkParser safeErrorString serverSideId
      azureSentinelChunk freshSession
    = (freshSession, [], Normal tt).
Proof. repeat split; reflexivity. Qed.

(** ** Upstream errors *)

(** C8: an event carrying a structured error makes exactly one
    terminating-issue call, whose text contains the error's message, raises
    nothing, and makes no [appendText] or tool-call sink call; the accumulator
    is left as it was. *)
Theorem upstream_error_passthrough newId json s e :
  chunk_error json = Some e →
  let r := createOpenAIChatCompletionsChunkParser safeErrorString newId json s in
  r.2 = Normal tt
  ∧ (∃ text, omap issueOf r.1.2 = [text]
       ∧ ∀ m, error_message e = Some m → contains text m)
  ∧ Forall (λ c, isContentCall c = false) r.1.2
  ∧ accumulator r.1.1 = accumulator s.
Proof.
  intros He.
  assert (Ht : ∀ m, error_message e = Some m →
                 contains (strOr (safeErrorString e) "unknown.") m).
  { intros m Hm. unfold strOr, safeErrorString. rewrite Hm.
    destruct (decide (m = "")) as [-> | Hne].
    - exists "", "unknown.". reflexivity.
    - rewrite !(strTruthy_some _ Hne). exists "", "". rewrite append_nil_r. reflexivity. }
  unfold createOpenAIChatCompletionsChunkParser, call, bind, reportModel, get, upstreamError.
  rewrite He. unfold bind, modify, pt, ret, return_.
  destruct (hasBegun s); [| destruct (strTruthy (chunk_model json))]; simpl;
    (split; [reflexivity |]); (split; [eexists; split; [reflexivity | exact Ht] |]);
    (split; [repeat constructor | reflexivity]).
Qed.

Lemma upstream_error_passthrough_witness :
  createOpenAIChatCompletionsChunkParser safeErrorString serverSideId rateLimitedChunk
    freshSession
  = (freshSession, [setDialectTerminatingIssue "rate limited" IssueGeneric], Normal tt)
  ∧ ∃ text,
      omap issueOf
        (createOpenAIChatCompletionsChunkParser safeErrorString serverSideId rateLimitedChunk
           freshSession).1.2 = [text]
      ∧ contains text "rate limited".
Proof.
  split; [reflexivity |].
  destruct (upstream_error_passthrough serverSideId rateLimitedChunk freshSession
              {| error_message := Some "rate limited" |} eq_refl)
    as (_ & (text & Htext & Hm) & _).
  exists text. split; [exact Htext | now apply Hm].
Defined.

(** ** Text accumulation *)

Lemma appendFragments_some (x : string) (fs : list string) :
  appendFragments (Some x) fs = Some (x +:+ String.concat "" fs).
Proof.
  revert x. induction fs as [|f fs IH]; intros x.
  - simpl. now rewrite append_nil_r.
  - rewrite concat_cons, <- append_assoc. apply IH.
Qed.

Lemma appendFragments_fresh (fs : list string) :
  default "" (appendFragments None fs) = String.concat "" fs
  ∧ (fs ≠ [] → appendFragments None fs = Some (String.concat "" fs)).
Proof.
  destruct fs as [|f fs]; [split; [reflexivity | congruence] |].
  assert (appendFragments None (f :: fs) = Some (String.concat "" (f :: fs))) as ->.
  { rewrite concat_cons. apply (appendFragments_some f fs). }
  split; [reflexivity | trivial].
Qed.

(** C1: after a session has processed text-delta events carrying the
    fragments [f1 .. fk], in arrival order, the accumulator's content is
    [f1 ++ ... ++ fk] (it is a string as soon as there is one fragment), and
    [appendText] has been called once per fragment, with that fragment, in
    the same order. *)
Theorem text_accumulation render newId (events : list ChunkResponse) (fragments : list string) :
  Forall2 textDeltaChunk events fragments →
  let r := processChunks render newId events freshSession in
  default "" (content (accumulator r.1.1)) = String.concat "" fragments
  ∧ (fragments ≠ [] → content (accumulator r.1.1) = Some (String.concat "" fragments))
  ∧ omap textOf r.1.2 = fragments.
Proof.
  intros H. cbv zeta.
  destruct (session_textDeltas render newId events fragments freshSession H) as [-> ->].
  destruct (appendFragments_fresh fragments) as [H1 H2]. auto.
Qed.

Lemma text_accumulation_witness :
  let r := processChunks safeErrorString serverSideId
             [plainChunk (Some "m1") [textChoice "Hel"]; plainChunk None [textChoice "lo"]]
             freshSession in
  content (accumulator r.1.1) = Some "Hello" ∧ omap textOf r.1.2 = ["Hel"; "lo"].
Proof.
  destruct (text_accumulation safeErrorString serverSideId
              [plainChunk (Some "m1") [textChoice "Hel"]; plainChunk None [textChoice "lo"]]
              ["Hel"; "lo"]) as (_ & Hc & Ht).
  - repeat (constructor; [eexists _, _; repeat split; reflexivity |]). constructor.
  - split; [apply Hc; discriminate | exact Ht].
Defined.

(** ** Tool calls *)

(** C9: when the entries of an event's tool-call list that come before [e]
    are updates of recorded tool calls, and [e] addresses an index with no
    entry, the parser stores a new entry there (id from the event, else a
    generated one; name and arguments from the event, else empty), then makes
    the [startFunctionToolCall] call with those values as its last sink call,
    and ends normally: the entries after [e] are not processed, the result
    being that of the event cut off before [e] plus the creation. *)
Theorem tool_call_creation render newId json s choice delta before e after :
  dataChunk json choice delta → (∀ t, delta_content delta ≠ ContentOther t) →
  delta_tool_calls delta = Some (before ++ e :: after) →
  Forall (updateEntry (accumulator s)) before →
  badToolCallType (dtc_type e) = None →
  tool_calls (accumulator s) !! resolveIndex (accumulator s) e = None →
  let r := createOpenAIChatCompletionsChunkParser render newId json s in
  let r0 := createOpenAIChatCompletionsChunkParser render newId
              (withToolCalls before json) s in
  let created :=
    {| tc_id := default (newId "aix-tool-call-id" (idsIssued s)) (strTruthy (dtc_id e));
       tc_name := strOr (fn_name (dtc_function e)) "";
       tc_arguments := strOr (fn_arguments (dtc_function e)) "" |} in
  r.2 = Normal tt
  ∧ accumulator r.1.1 = arrayStore (accumulator r0.1.1) (resolveIndex (accumulator s) e) created
  ∧ tool_calls (accumulator r.1.1) !! resolveIndex (accumulator s) e = Some created
  ∧ r.1.2 = r0.1.2 ++ [startFunctionToolCall (tc_id created) (tc_name created) incr_str
                         (tc_arguments created)].
Proof.
  intros Hd Hc Hl Hb Ht Hn. cbv zeta.
  assert (Hl' : default [] (delta_tool_calls delta) = before ++ e :: after) by now rewrite Hl.
  destruct (parser_creation render newId json s choice delta before e after
              Hd Hc Hl' Hb Ht Hn) as (Ho & _ & Ha & Hcalls).
  split; [exact Ho |]. split; [exact Ha |]. split; [| exact Hcalls].
  rewrite Ha. unfold arrayStore. cbn [tool_calls]. apply lookup_insert_eq.
Qed.

Lemma tool_call_creation_witness :
  let json := plainChunk None
                [toolCallsChoice
                   [deltaToolCallOf 0 None None (Some "{city");
                    deltaToolCallOf 1 None (Some "get_time") None;
                    deltaToolCallOf 0 None None (Some ":Oslo}")]] in
  createOpenAIChatCompletionsChunkParser safeErrorString serverSideId json weatherSession
  = ({| hasBegun := false; hasWarned := false;
        accumulator :=
          {| content := None;
             tool_calls :=
               <[1 := {| tc_id := "aix-tool-call-id_0"; tc_name := "get_time";
                         tc_arguments := "" |}]>
                 (<[0 := {| tc_id := "tc1"; tc_name := "get_weather";
                            tc_arguments := "{city" |}]> ∅);
             tool_calls_length := 2 |};
        idsIssued := 1; console := [] |},
     [appendFunctionToolCallArgsIStr "tc1" "{city";
      startFunctionToolCall "aix-tool-call-id_0" "get_time" incr_str ""],
     Normal tt)
  ∧ tool_calls
      (accumulator
         (createOpenAIChatCompletionsChunkParser safeErrorString serverSideId json
            weatherSession).1.1) !! 1
    = Some {| tc_id := "aix-tool-call-id_0"; tc_name := "get_time"; tc_arguments := "" |}.
Proof.
  cbv zeta. split; [vm_compute; reflexivity |].
  refine (proj1 (proj2 (proj2
    (tool_call_creation safeErrorString serverSideId _ weatherSession
       (toolCallsChoice _) (toolCallsDelta _)
       [deltaToolCallOf 0 None None (Some "{city")]
       (deltaToolCallOf 1 None (Some "get_time") None)
       [deltaToolCallOf 0 None None (Some ":Oslo}")] _ _ _ _ _ _)))).
  - repeat split; reflexivity.
  - intros t. discriminate.
  - reflexivity.
  - constructor; [| constructor].
    split; [reflexivity |].
    exists {| tc_id := "tc1"; tc_name := "get_weather"; tc_arguments := "" |}.
    split; [reflexivity |]. split; [intros id H; discriminate H | reflexivity].
  - reflexivity.
  - reflexivity.
Defined.

(** C3, as amended: when the entries of an event's tool-call list that come
    before [e] are updates of recorded tool calls (so the loop reaches [e]),
    and [e] addresses an index that has an entry while supplying a different
    non-empty id or any non-empty name, the parser raises a fatal error, and
    the state and the sink calls of the event are exactly those of the event
    cut off before [e]: nothing is mutated for [e] or for what follows it. *)
Theorem write_once_id_and_name render newId json s choice delta before e after tc :
  dataChunk json choice delta → (∀ t, delta_content delta ≠ ContentOther t) →
  delta_tool_calls delta = Some (before ++ e :: after) →
  Forall (updateEntry (accumulator s)) before →
  tool_calls (accumulator s) !! resolveIndex (accumulator s) e = Some tc →
  (∃ id, strTruthy (dtc_id e) = Some id ∧ id ≠ tc_id tc)
  ∨ is_Some (strTruthy (fn_name (dtc_function e))) →
  let r := createOpenAIChatCompletionsChunkParser render newId json s in
  let r0 := createOpenAIChatCompletionsChunkParser render newId
              (withToolCalls before json) s in
  (∃ err, r.2 = Thrown err) ∧ r.1.1 = r0.1.1 ∧ r.1.2 = r0.1.2.
Proof.
  intros Hd Hc Hl Hb Htc Hbad. cbv zeta.
  assert (Hl' : default [] (delta_tool_calls delta) = before ++ e :: after) by now rewrite Hl.
  destruct (parser_rejection render newId json s choice delta before e after tc
              Hd Hc Hl' Hb Htc Hbad) as [Herr ->].
  auto.
Qed.

Lemma write_once_id_and_name_witness :
  let json := plainChunk None
                [toolCallsChoice
                   [deltaToolCallOf 0 None None (Some "{city");
                    deltaToolCallOf 0 (Some "tc9") None (Some ":Oslo}")]] in
  createOpenAIChatCompletionsChunkParser safeErrorString serverSideId json weatherSession
  = ({| hasBegun := false; hasWarned := false;
        accumulator :=
          {| content := None;
             tool_calls := <[0 := {| tc_id := "tc1"; tc_name := "get_weather";
                                     tc_arguments := "{city" |}]> ∅;
             tool_calls_length := 1 |};
        idsIssued := 0; console := [] |},
     [appendFunctionToolCallArgsIStr "tc1" "{city"],
     Thrown (UnexpectedToolCallIdChange "tc9"))
  ∧ ∃ err,
      (createOpenAIChatCompletionsChunkParser safeErrorString serverSideId json
         weatherSession).2 = Thrown err.
Proof.
  cbv zeta. split; [vm_compute; reflexivity |].
  refine (proj1
    (write_once_id_and_name safeErrorString serverSideId _ weatherSession
       (toolCallsChoice _) (toolCallsDelta _)
       [deltaToolCallOf 0 None None (Some "{city")]
       (deltaToolCallOf 0 (Some "tc9") None (Some ":Oslo}"))
       []
       {| tc_id := "tc1"; tc_name := "get_weather"; tc_arguments := "" |} _ _ _ _ _ _)).
  - repeat split; reflexivity.
  - intros t. discriminate.
  - reflexivity.
  - constructor; [| constructor].
    split; [reflexivity |].
    exists {| tc_id := "tc1"; tc_name := "get_weather"; tc_arguments := "" |}.
    split; [reflexivity |]. split; [intros id H; discriminate H | reflexivity].
  - reflexivity.
  - left. exists "tc9". split; [reflexivity | discriminate].
Defined.

(** C3, as stated, fails: the second event supplies the different id ["tc9"]
    for index 0, which has an entry, but it does so after an entry that
    creates a tool call at index 1; the loop stops at the creation and no
    fatal error is raised. *)
Lemma write_once_counterexample :
  let json := plainChunk None
                [toolCallsChoice
                   [deltaToolCallOf 1 (Some "tc2") (Some "get_time") None;
                    deltaToolCallOf 0 (Some "tc9") None None]] in
  tc_id <$> tool_calls (accumulator weatherSession) !! 0 = Some "tc1"
  ∧ (createOpenAIChatCompletionsChunkParser safeErrorString serverSideId json
       weatherSession).1.2
    = [startFunctionToolCall "tc2" "get_time" incr_str ""]
  ∧ (createOpenAIChatCompletionsChunkParser safeErrorString serverSideId json
       weatherSession).2 = Normal tt.
Proof. cbv zeta. repeat split; vm_compute; reflexivity. Qed.

(** C2, as amended: for a tool-call index that has an entry (right after
    its creation the arguments are the seed), after any sequence of events
    the recorded arguments are the arguments at the start followed by every
    non-empty argument fragment that an applied entry addresses to that
    index, in arrival order, and id and name are unchanged.  An entry is
    applied when its event reaches the tool-call loop (no upstream error,
    not the sentinel, exactly one choice, with index [0] or none, and a
    delta with well-typed content) and it and every entry before it in the
    event update a recorded tool call (accepted type, index with an entry,
    no other id, no name): the entries from the first one that creates a
    tool call or is rejected are not applied.  The
    [appendFunctionToolCallArgsIStr] calls are exactly the fragments of the
    applied entries, over all indices, in arrival order, each keyed by the id
    of the tool call it addresses. *)
Theorem tool_call_arguments_growth render newId s i tc (events : list ChunkResponse) :
  tool_calls (accumulator s) !! i = Some tc →
  let r := processChunks render newId events s in
  tool_calls (accumulator r.1.1) !! i
    = Some {| tc_id := tc_id tc; tc_name := tc_name tc;
              tc_arguments :=
                tc_arguments tc
                +:+ String.concat "" (appliedFragments render newId i events s) |}
  ∧ omap argsAppendOf r.1.2 = appliedAppends render newId events s.
Proof.
  intros Htc. cbv zeta.
  destruct (session_applied render newId events s) as [L T].
  split; [exact (L i tc Htc) | exact T].
Qed.

Lemma tool_call_arguments_growth_witness :
  let entry index id name arguments :=
    plainChunk None [toolCallsChoice [deltaToolCallOf index id name arguments]] in
  let events :=
    [entry 0 None None (Some "{city");
     entry 1 (Some "tc2") (Some "get_time") None;
     entry 0 None None None;
     entry 0 (Some "tc1") None (Some ":Oslo");
     entry 1 None None (Some "{}");
     plainChunk None
       [toolCallsChoice [deltaToolCallOf 2 (Some "tc3") (Some "get_date") None;
                         deltaToolCallOf 0 None None (Some "not applied")]];
     rateLimitedChunk;
     plainChunk None [textChoice "Hello"];
     entry 0 None None (Some "}")] in
  let r := processChunks safeErrorString serverSideId events weatherSession in
  tool_calls (accumulator r.1.1) !! 0
    = Some {| tc_id := "tc1"; tc_name := "get_weather"; tc_arguments := "{city:Oslo}" |}
  ∧ omap argsAppendOf r.1.2
    = [("tc1", "{city"); ("tc1", ":Oslo"); ("tc2", "{}"); ("tc1", "}")].
Proof.
  intros entry events.
  exact (tool_call_arguments_growth safeErrorString serverSideId weatherSession 0
           {| tc_id := "tc1"; tc_name := "get_weather"; tc_arguments := "" |} events
           eq_refl).
Defined.

(** C2, as stated, fails: in the second event the fragment ["{city"] is
    addressed to index 0, which has an entry, but follows an entry that
    creates a tool call at index 1; the loop stops at the creation, so the
    fragment is neither appended nor forwarded. *)
Lemma tool_call_arguments_counterexample :
  let json := plainChunk None
                [toolCallsChoice
                   [deltaToolCallOf 1 (Some "tc2") (Some "get_time") None;
                    deltaToolCallOf 0 None None (Some "{city")]] in
  let r := processChunks safeErrorString serverSideId [weatherStart; json] freshSession in
  fragmentsFor (accumulator weatherSession) 0 (chunkToolCalls json) = ["{city"]
  ∧ tool_calls (accumulator r.1.1) !! 0
    = Some {| tc_id := "tc1"; tc_name := "get_weather"; tc_arguments := "" |}
  ∧ r.1.2 = [startFunctionToolCall "tc1" "get_weather" incr_str "";
             startFunctionToolCall "tc2" "get_time" incr_str ""]
  ∧ r.2 = [Normal tt; Normal tt].
Proof. cbv zeta. repeat split; vm_compute; reflexivity. Qed.

(** * Further properties of the parsers *)

(** ** Runs as sequences of guarded actions *)

Section Tracking.

Context {S : Type} (P : S → list SinkCall → S → Prop) `{!Composes P}.

Lemma tracks_ret {A} (a : A) : tracks P (ret a).
Proof. intros s. apply composes_nil. Qed.

Lemma tracks_throw {A} e : tracks P (@throw S A e).
Proof. intros s. apply composes_nil. Qed.

Lemma tracks_return {A} : tracks P (@return_ S A).
Proof. intros s. apply composes_nil. Qed.

Lemma tracks_bind {A B} (m : M S A) (f : A → M S B) :
  tracks P m → (∀ a, tracks P (f a)) → tracks P (bind m f).
Proof.
  intros Hm Hf s. specialize (Hm s). unfold bind.
  destruct (m s) as [[s1 t1] [a| |e]]; simpl in *; try exact Hm.
  specialize (Hf a s1). destruct (f a s1) as [[s2 t2] o]; simpl in *.
  eapply composes_app; eassumption.
Qed.

Lemma tracks_get_bind {A} (f : S → M S A) :
  (∀ s, P s (f s s).1.2 (f s s).1.1) → tracks P (bind get f).
Proof.
  intros H s. specialize (H s). unfold bind, get.
  now destruct (f s s) as [[s2 t2] o].
Qed.

Lemma tracks_when c m : tracks P m → tracks P (when c m).
Proof. destruct c; simpl; [trivial | intros _; apply tracks_ret]. Qed.

Lemma tracks_call m : tracks P m → tracks P (call m).
Proof.
  intros Hm s. specialize (Hm s). unfold call.
  now destruct (m s) as [[s1 t1] [[]| |e]].
Qed.

End Tracking.

Lemma strTruthy_truthy (o : option string) : strTruthy o = Some "" → False.
Proof.
  destruct o as [x|]; simpl; [| discriminate].
  destruct (decide (x = "")); [discriminate | congruence].
Qed.

Section Actions.

Variable render : UpstreamError → option string.
Variable newId : string → nat → string.
Context (P : Session → list SinkCall → Session → Prop) `{!Composes P}.
Hypothesis HP : RespectsActions P.

Lemma toolCallStep_tracks e : tracks P (toolCallStep newId e).
Proof.
  unfold toolCallStep.
  destruct (badToolCallType (dtc_type e)); [apply tracks_throw; apply _ |].
  apply tracks_get_bind. intros s.
  destruct (tool_calls (accumulator s) !! resolveIndex (accumulator s) e) as [tc|] eqn:Hl.
  - destruct (strTruthy (dtc_id e)) as [id|]; [destruct (decide (id = tc_id tc)) |];
      try apply composes_nil;
      (destruct (strTruthy (fn_name (dtc_function e))); [apply composes_nil |]);
      (destruct (strTruthy (fn_arguments (dtc_function e))) as [f|] eqn:Hf;
       [| apply composes_nil]);
      apply (act_update P HP s _ tc f Hl);
      intros ->; destruct (strTruthy_truthy _ Hf).
  - destruct (strTruthy (dtc_id e)) as [id|].
    + apply (act_create P HP s s); [exact Hl | now left].
    + apply (act_create P HP s (tickIds s)); [exact Hl | now right].
Qed.

Lemma toolCallsLoop_tracks tcs : tracks P (toolCallsLoop newId tcs).
Proof.
  induction tcs as [|e tcs IH]; simpl; [apply tracks_ret; apply _ |].
  apply tracks_bind; [apply _ | apply toolCallStep_tracks |].
  intros []; [exact IH | apply tracks_ret; apply _].
Qed.

Lemma deltaText_tracks c : tracks P (deltaText c).
Proof.
  intros s. destruct c; try apply composes_nil. apply (act_text P HP).
Qed.

Lemma choiceStep_tracks choice : tracks P (choiceStep newId choice).
Proof.
  unfold choiceStep. apply tracks_bind; [apply _ | |].
  - destruct (badChoiceIndex _); [apply tracks_throw | apply tracks_ret]; apply _.
  - intros _. destruct (choice_delta choice); [| apply tracks_throw; apply _].
    apply tracks_bind; [apply _ | apply deltaText_tracks |].
    intros _. apply toolCallsLoop_tracks.
Qed.

Lemma choicesLoop_tracks choices : tracks P (choicesLoop newId choices).
Proof.
  induction choices as [|choice choices IH]; simpl; [apply tracks_ret; apply _ |].
  apply tracks_bind; [apply _ | apply choiceStep_tracks | intros _; exact IH].
Qed.

(** Every run of the streaming parser is a composition of the guarded
    actions, whatever the event and the state. *)
Lemma parser_tracks json : tracks P (createOpenAIChatCompletionsChunkParser render newId json).
Proof.
  unfold createOpenAIChatCompletionsChunkParser. apply tracks_call.
  apply tracks_bind; [apply _ | | intros _].
  { unfold reportModel. apply tracks_get_bind. intros s.
    destruct (hasBegun s) eqn:Hb; [apply composes_nil |].
    destruct (strTruthy (chunk_model json)); [| apply composes_nil].
    now apply (act_model P HP). }
  apply tracks_bind; [apply _ | | intros _].
  { intros s. unfold upstreamError. destruct (chunk_error json); [| apply composes_nil].
    apply (act_issue P HP). }
  apply tracks_bind; [apply _ | | intros _].
  { unfold warnOnce. apply tracks_get_bind. intros s.
    destruct (strTruthy (chunk_warning json)); [| apply composes_nil].
    destruct (hasWarned s) eqn:Hw; [apply composes_nil |].
    now apply (act_warn P HP). }
  apply tracks_bind; [apply _ | | intros _].
  { apply tracks_when; [apply _ | apply tracks_return; apply _]. }
  apply tracks_bind; [apply _ | | intros _].
  { intros s. unfold primaryUsage. destruct (chunk_usage json) as [u|]; [| apply composes_nil].
    unfold bind. destruct (completion_tokens u); destruct (bool_decide _); simpl;
      first [apply composes_nil | apply (act_counters P HP)]. }
  apply tracks_bind; [apply _ | | intros _].
  { intros s. unfold groqUsage. destruct (chunk_x_groq json ≫= xgroq_usage);
      [apply (act_counters P HP) | apply composes_nil]. }
  apply tracks_bind; [apply _ | | intros _].
  { apply tracks_when; [apply _ | apply tracks_throw; apply _]. }
  apply choicesLoop_tracks.
Qed.

Lemma session_tracks events s :
  P s (processChunks render newId events s).1.2 (processChunks render newId events s).1.1.
Proof.
  revert s. induction events as [|json events IH]; intros s; [apply composes_nil |].
  rewrite session_cons. cbn [fst snd].
  eapply composes_app; [apply parser_tracks | apply IH].
Qed.

End Actions.

(** ** The accumulator only grows *)

Lemma extends_same s s' :
  accumulator s' = accumulator s →
  (hasBegun s = true → hasBegun s' = true) →
  (hasWarned s = true → hasWarned s' = true) →
  extends s s'.
Proof.
  intros Ha Hb Hw. unfold extends. rewrite Ha.
  split; [| split; [exists ""; now rewrite append_nil_r |]; split; [trivial |];
            split; [reflexivity | split; assumption]].
  intros i [id name args] Hl. exists "". now rewrite append_nil_r.
Qed.

#[local] Instance extends_composes : Composes (λ s _ s', extends s s').
Proof.
  split.
  - intros s. now apply extends_same.
  - intros s1 _ s2 _ s3 (L1 & C1 & S1 & N1 & B1 & W1) (L2 & C2 & S2 & N2 & B2 & W2).
    split; [| split; [| split; [auto | split; [lia | split; auto]]]].
    + intros i tc Hl. destruct (L1 i tc Hl) as [x1 H1].
      destruct (L2 i _ H1) as [x2 H2]. exists (x1 +:+ x2).
      rewrite H2. simpl. now rewrite append_assoc.
    + destruct C1 as [x1 H1], C2 as [x2 H2]. exists (x1 +:+ x2).
      now rewrite H2, H1, append_assoc.
Qed.

Lemma extends_actions : RespectsActions (λ s _ s', extends s s').
Proof.
  split.
  - intros s model Hb. now apply extends_same.
  - intros s text. now apply extends_same.
  - intros s w Hw. now apply extends_same.
  - intros s k. now apply extends_same.
  - intros s text. unfold extends. cbn [accumulator setAccumulator setContent content
      tool_calls tool_calls_length hasBegun hasWarned].
    split; [| split; [| split; [eauto | split; [reflexivity | split; trivial]]]].
    + intros i [id name args] Hl. exists "". now rewrite append_nil_r.
    + exists text. cbn [default from_option id]. now rewrite strTruthy_default.
  - intros s s0 i created Hn Hs0.
    assert (Ha : accumulator s0 = accumulator s) by (destruct Hs0; now subst).
    assert (Hb : hasBegun s0 = hasBegun s) by (destruct Hs0; now subst).
    assert (Hw : hasWarned s0 = hasWarned s) by (destruct Hs0; now subst).
    unfold extends. cbn [accumulator setAccumulator arrayStore content
      tool_calls tool_calls_length hasBegun hasWarned]. rewrite Ha, Hb, Hw.
    split; [| split; [exists ""; now rewrite append_nil_r |]; split; [trivial |];
              split; [| split; trivial]].
    + intros j [id name args] Hl. exists "". rewrite append_nil_r.
      rewrite lookup_insert_ne; [exact Hl | congruence].
    + destruct (isArrayIndex i); lia.
  - intros s i tc fragment Hl _. unfold extends.
    cbn [accumulator setAccumulator hasBegun hasWarned].
    split; [| split; [exists ""; now rewrite append_nil_r |]; split; [trivial |];
              split; [reflexivity | split; trivial]].
    intros j [id name args] Hj. rewrite appendArguments_lookup, Hj.
    case_decide; [exists fragment | exists ""; rewrite append_nil_r]; reflexivity.
Qed.

(** X1: whatever the events and whatever they raise, a session only extends
    its state: recorded tool calls keep their id and name and their
    arguments grow at the end, the text content grows at the end, and the
    latches stay set. *)
Theorem session_extends render newId (events : list ChunkResponse) (s : Session) :
  extends s (processChunks render newId events s).1.1.
Proof.
  apply (session_tracks render newId (λ s _ s', extends s s') extends_actions).
Qed.

(** ** The sink's text is the accumulator's *)

#[local] Instance textAgrees_composes : Composes textAgrees.
Proof.
  split.
  - intros s. unfold textAgrees. simpl. now rewrite append_nil_r.
  - intros s1 t1 s2 t2 s3 H1 H2. unfold textAgrees in *.
    now rewrite H2, H1, omap_app, concat_app, append_assoc.
Qed.

Lemma textAgrees_same s t s' :
  content (accumulator s') = content (accumulator s) → omap textOf t = [] →
  textAgrees s t s'.
Proof. intros Hc Ht. unfold textAgrees. rewrite Hc, Ht. simpl. now rewrite append_nil_r. Qed.

Lemma textAgrees_actions : RespectsActions textAgrees.
Proof.
  split.
  - intros s model _. now apply textAgrees_same.
  - intros s text. now apply textAgrees_same.
  - intros s w _. now apply textAgrees_same.
  - intros s k. now apply textAgrees_same.
  - intros s text. unfold textAgrees.
    cbn [accumulator setAccumulator setContent content default from_option id].
    rewrite strTruthy_default. reflexivity.
  - intros s s0 i created _ Hs0. apply textAgrees_same; [| reflexivity].
    destruct Hs0; now subst.
  - intros s i tc fragment _ _. now apply textAgrees_same.
Qed.

(** X2: over any events, raising or not, the text the accumulator gained is
    the concatenation, in order, of the fragments [appendText] was called
    with. *)
Theorem sink_text_is_content render newId (events : list ChunkResponse) (s : Session) :
  let r := processChunks render newId events s in
  default "" (content (accumulator r.1.1))
  = default "" (content (accumulator s)) +:+ String.concat "" (omap textOf r.1.2).
Proof. apply (session_tracks render newId textAgrees textAgrees_actions). Qed.

(** ** Recorded tool calls and announced tool calls *)

Lemma announcesEntries_same s t s' :
  tool_calls (accumulator s') = tool_calls (accumulator s) → omap startOf t = [] →
  announcesEntries s t s'.
Proof.
  intros Hc Ht. unfold announcesEntries. rewrite Hc, Ht. split; [simpl; lia |].
  intros i tc' Hl. left. now exists tc'.
Qed.

#[local] Instance announcesEntries_composes : Composes announcesEntries.
Proof.
  split.
  - intros s. now apply announcesEntries_same.
  - intros s1 t1 s2 t2 s3 [N1 O1] [N2 O2]. split.
    + rewrite N2, N1, omap_app, length_app. lia.
    + intros i tc3 H3. destruct (O2 i tc3 H3) as [(tc2 & H2 & Hi & Hn) | [seed Hs]].
      * destruct (O1 i tc2 H2) as [(tc1 & H1 & Hi1 & Hn1) | [seed Hs]].
        -- left. exists tc1. split; [exact H1 | split; congruence].
        -- right. exists seed. rewrite <- Hi, <- Hn. apply elem_of_app. now left.
      * right. exists seed. apply elem_of_app. now right.
Qed.

Lemma announcesEntries_actions : RespectsActions announcesEntries.
Proof.
  split.
  - intros s model _. now apply announcesEntries_same.
  - intros s text. now apply announcesEntries_same.
  - intros s w _. now apply announcesEntries_same.
  - intros s k. now apply announcesEntries_same.
  - intros s text. now apply announcesEntries_same.
  - intros s s0 i created Hn Hs0.
    assert (Ha : accumulator s0 = accumulator s) by (destruct Hs0; now subst).
    unfold announcesEntries. cbn [accumulator setAccumulator arrayStore tool_calls].
    rewrite Ha. split.
    + rewrite map_size_insert_None by exact Hn. simpl. lia.
    + intros j tc' Hj. destruct (decide (i = j)) as [-> | Hne].
      * rewrite lookup_insert_eq in Hj. injection Hj as <-.
        right. exists (tc_arguments created). apply list_elem_of_singleton. reflexivity.
      * rewrite lookup_insert_ne in Hj by exact Hne. left. now exists tc'.
  - intros s i tc fragment Hl _. unfold announcesEntries.
    cbn [accumulator setAccumulator]. split.
    + unfold appendArguments. cbn [tool_calls omap list_omap argsAppendOf startOf length].
      rewrite <- !(size_dom (D := gset Z)), dom_alter_L. lia.
    + intros j tc' Hj. left. rewrite appendArguments_lookup in Hj.
      destruct (tool_calls (accumulator s) !! j) as [tcj|]; [| discriminate Hj].
      exists tcj. split; [reflexivity |]. simpl in Hj. injection Hj as <-.
      now case_decide.
Qed.

(** X3: in a session started afresh, whatever the events, there are as many
    recorded tool calls as [startFunctionToolCall] calls, and every recorded
    tool call was announced by such a call with its id and name. *)
Theorem recorded_tool_calls_are_announced render newId (events : list ChunkResponse) :
  let r := processChunks render newId events freshSession in
  size (tool_calls (accumulator r.1.1)) = length (omap startOf r.1.2)
  ∧ ∀ i tc, tool_calls (accumulator r.1.1) !! i = Some tc →
      ∃ seed, startFunctionToolCall (tc_id tc) (tc_name tc) incr_str seed ∈ r.1.2.
Proof.
  cbv zeta.
  destruct (session_tracks render newId announcesEntries announcesEntries_actions
              events freshSession) as [N O].
  split; [exact N |].
  intros i tc Hl. destruct (O i tc Hl) as [(tc0 & H0 & _) | H]; [| exact H].
  cbn in H0. rewrite lookup_empty in H0. discriminate H0.
Qed.

(** ** Argument fragments are keyed by announced ids *)

Lemma announced_mono known known' t :
  (∀ x, x ∈ known → x ∈ known') → announced known t → announced known' t.
Proof.
  revert known known'. induction t as [|c t IH]; intros known known' Hk; [trivial |].
  destruct c; simpl; try apply (IH _ _ Hk).
  - apply IH. intros x Hx. apply elem_of_cons in Hx as [-> | Hx];
      apply elem_of_cons; [now left | right; now apply Hk].
  - intros [Hi Ht]. split; [now apply Hk | now apply (IH _ _ Hk)].
Qed.

Lemma announced_app known t1 t2 :
  announced known t1 → announced (omap startIdOf t1 ++ known) t2 →
  announced known (t1 ++ t2).
Proof.
  revert known. induction t1 as [|c t1 IH]; intros known H1 H2; [exact H2 |].
  destruct c; simpl in *; try now apply IH.
  - apply IH; [exact H1 |]. eapply announced_mono; [| exact H2].
    intros x. rewrite !elem_of_app, !elem_of_cons, elem_of_app. tauto.
  - destruct H1 as [Hi H1]. split; [exact Hi | now apply IH].
Qed.

Lemma keysAnnounced_same s t s' :
  tool_calls (accumulator s') = tool_calls (accumulator s) →
  Forall (λ c, argsAppendOf c = None) t →
  keysAnnounced s t s'.
Proof.
  intros Hc Ht known Hk. rewrite Hc. split.
  - clear Hk. revert known. induction Ht as [|c t Hc' _ IH]; intros known; [exact I |].
    destruct c; simpl; try apply IH. discriminate Hc'.
  - intros i tc Hl. apply elem_of_app. right. now apply (Hk i).
Qed.

#[local] Instance keysAnnounced_composes : Composes keysAnnounced.
Proof.
  split.
  - intros s. now apply keysAnnounced_same.
  - intros s1 t1 s2 t2 s3 H1 H2 known Hk.
    destruct (H1 known Hk) as [A1 K1].
    destruct (H2 (omap startIdOf t1 ++ known) K1) as [A2 K2].
    split; [now apply announced_app |].
    intros i tc Hl. rewrite omap_app. specialize (K2 i tc Hl).
    revert K2. rewrite !elem_of_app. tauto.
Qed.

Lemma keysAnnounced_actions : RespectsActions keysAnnounced.
Proof.
  split.
  - intros s model _. apply keysAnnounced_same; [reflexivity | now repeat constructor].
  - intros s text. apply keysAnnounced_same; [reflexivity | now repeat constructor].
  - intros s w _. apply keysAnnounced_same; [reflexivity | constructor].
  - intros s k. apply keysAnnounced_same; [reflexivity | now repeat constructor].
  - intros s text. apply keysAnnounced_same; [reflexivity | now repeat constructor].
  - intros s s0 i created Hn Hs0 known Hk.
    assert (Ha : accumulator s0 = accumulator s) by (destruct Hs0; now subst).
    cbn [accumulator setAccumulator arrayStore tool_calls]. rewrite Ha.
    split; [exact I |]. intros j tc Hj. simpl.
    destruct (decide (i = j)) as [-> | Hne].
    + rewrite lookup_insert_eq in Hj. injection Hj as <-. apply elem_of_cons. now left.
    + rewrite lookup_insert_ne in Hj by exact Hne. apply elem_of_cons. right.
      now apply (Hk j).
  - intros s i tc fragment Hl _ known Hk.
    cbn [accumulator setAccumulator]. split.
    + simpl. split; [now apply (Hk i) | exact I].
    + intros j tc' Hj. simpl. rewrite appendArguments_lookup in Hj.
      destruct (tool_calls (accumulator s) !! j) as [tcj|] eqn:Hlj; [| discriminate Hj].
      simpl in Hj. injection Hj as <-.
      assert (tc_id ((if decide (i = j) then growArguments [fragment] else id) tcj)
              = tc_id tcj) as -> by now case_decide.
      now apply (Hk j).
Qed.

(** X4: in a session started afresh, whatever the events, every
    [appendFunctionToolCallArgsIStr] call is keyed by an id that an earlier
    [startFunctionToolCall] call of the session introduced. *)
Theorem argument_appends_follow_their_start render newId (events : list ChunkResponse) :
  announced [] (processChunks render newId events freshSession).1.2.
Proof.
  apply (session_tracks render newId keysAnnounced keysAnnounced_actions events freshSession).
  intros i tc Hl. cbn in Hl. rewrite lookup_empty in Hl. discriminate Hl.
Qed.

(** ** The tool-call array stays a JavaScript array *)

#[local] Instance arrayInvariant_composes :
  Composes (λ s (_ : list SinkCall) s',
              arrayInvariant (accumulator s) → arrayInvariant (accumulator s')).
Proof. split; [trivial | intros s1 _ s2 _ s3 H1 H2 H; auto]. Qed.

Lemma arrayStore_invariant a i v : arrayInvariant a → arrayInvariant (arrayStore a i v).
Proof.
  intros [Hb Hk]. unfold arrayInvariant, arrayStore. cbn [tool_calls tool_calls_length].
  assert (Hi : isArrayIndex i = true → 0 ≤ i < 2 ^ 32 - 1)
    by (unfold isArrayIndex; intros H; apply andb_true_iff in H; lia).
  split.
  - destruct (isArrayIndex i); [specialize (Hi eq_refl) |]; lia.
  - intros j Hj Haj. destruct (decide (i = j)) as [-> | Hne].
    + rewrite Haj. lia.
    + rewrite lookup_insert_ne in Hj by exact Hne. specialize (Hk j Hj Haj).
      destruct (isArrayIndex i); lia.
Qed.

Lemma arrayInvariant_actions :
  RespectsActions (λ s (_ : list SinkCall) s',
                     arrayInvariant (accumulator s) → arrayInvariant (accumulator s')).
Proof.
  split; try (intros; assumption).
  - intros s s0 i created _ Hs0 H.
    assert (Ha : accumulator s0 = accumulator s) by (destruct Hs0; now subst).
    cbn [accumulator setAccumulator]. rewrite Ha. now apply arrayStore_invariant.
  - intros s i tc fragment _ _ [Hb Hk]. split; [exact Hb |].
    intros j Hj. apply Hk. cbn [accumulator setAccumulator] in Hj.
    rewrite appendArguments_lookup in Hj. destruct Hj as [x Hx].
    destruct (tool_calls (accumulator s) !! j); [eauto | discriminate Hx].
Qed.

(** X5: in a session started afresh, whatever the events, the tool-call
    array's [length] stays within the bounds of an array length and above
    every array index that holds a tool call. *)
Theorem tool_call_array_invariant render newId (events : list ChunkResponse) :
  arrayInvariant (accumulator (processChunks render newId events freshSession).1.1).
Proof.
  apply (session_tracks render newId _ arrayInvariant_actions events freshSession).
  split; [cbn; lia |]. intros i [x Hx]. cbn in Hx. rewrite lookup_empty in Hx.
  discriminate Hx.
Qed.

(** ** Events that end early *)

Section Gates.

Variable render : UpstreamError → option string.
Variable newId : string → nat → string.

Abbreviation parser := (createOpenAIChatCompletionsChunkParser render newId).

(** What follows the warning latch touches neither latch nor the console,
    names no model and reports no issue. *)
Lemma afterWarning_frames json :
  frames (keeps (λ s, (hasBegun s, hasWarned s, console s)))
    (λ c, modelNameOf c = None ∧ issueOf c = None)
    (when (isAzureSentinel json) return_ ;;
     primaryUsage json ;;
     groqUsage json ;;
     when (negb (bool_decide (length (chunk_choices json) = 1%nat)))
       (throw (ExpectedOneCompletion (length (chunk_choices json)))) ;;
     choicesLoop newId (chunk_choices json)).
Proof.
  repeat (apply frames_bind; [apply _ | | intros _]).
  - frames_auto.
  - eapply frames_weaken; [| | apply primaryUsage_frames]; [keeps_weaken |].
    now intros [] [? ?].
  - eapply frames_weaken; [| | apply groqUsage_frames]; [keeps_weaken |].
    now intros [] [? ?].
  - frames_auto.
  - eapply frames_weaken; [| | apply choicesLoop_frames]; [keeps_weaken |].
    now intros [].
Qed.

Lemma reportModel_silent json s :
  strTruthy (chunk_model json) = None → reportModel json s = (s, [], Normal tt).
Proof. intros Hm. unfold reportModel, bind, get. rewrite Hm. now destruct (hasBegun s). Qed.

Lemma sentinel_model json : isAzureSentinel json = true → strTruthy (chunk_model json) = None.
Proof.
  unfold isAzureSentinel. intros H. apply bool_decide_eq_true_1 in H as (_ & _ & ->).
  reflexivity.
Qed.

Lemma parser_sentinel json s :
  chunk_error json = None → isAzureSentinel json = true →
  parser json s = ((warnOnce json s).1.1, [], Normal tt).
Proof.
  intros He Hs. unfold createOpenAIChatCompletionsChunkParser.
  rewrite (call_bind_normal _ _ _ _ _ _ (reportModel_silent json s (sentinel_model json Hs))).
  unfold upstreamError. rewrite He, Hs.
  assert (Hr : @ret Session unit tt s = (s, [], Normal tt)) by reflexivity.
  rewrite (call_bind_normal _ _ _ _ _ _ Hr).
  destruct (warnOnce_run json s) as (s2 & E2 & _).
  rewrite (call_bind_normal _ _ _ _ _ _ E2), E2. reflexivity.
Qed.

Lemma parser_singleChoice json s choice :
  chunk_error json = None → isAzureSentinel json = false → chunk_choices json = [choice] →
  parser json s =
    let r := call (choiceStep newId choice) (gateState json s) in
    (r.1.1, gateCalls json s ++ r.1.2, r.2).
Proof.
  intros He Hs Hc.
  assert (Hn : ¬ usageOnlyChunk json) by (intros [_ Hn]; congruence).
  unfold gateState, gateCalls, createOpenAIChatCompletionsChunkParser.
  destruct (reportModel_run json s) as (s1 & t1 & E1 & _).
  rewrite (call_bind_normal _ _ _ _ _ _ E1), E1. cbn [fst snd].
  destruct (warnOnce_run json s1) as (s2 & E2 & _). rewrite E2. cbn [fst snd].
  unfold upstreamError. rewrite He, Hs.
  assert (Hr : @ret Session unit tt s1 = (s1, [], Normal tt)) by reflexivity.
  rewrite (call_bind_normal _ _ _ _ _ _ Hr).
  rewrite (call_bind_normal _ _ _ _ _ _ E2).
  assert (Hw : when false (@return_ Session unit) s2 = (s2, [], Normal tt)) by reflexivity.
  rewrite (call_bind_normal _ _ _ _ _ _ Hw).
  rewrite (call_bind_normal _ _ _ _ _ _ (primaryUsage_run json s2 Hn)).
  rewrite (call_bind_normal _ _ _ _ _ _ (groqUsage_run json s2)).
  rewrite Hc. cbn [length bool_decide negb].
  assert (Hl : when (negb (bool_decide (1%nat = 1%nat)))
                 (throw (ExpectedOneCompletion 1)) s2 = (s2, [], Normal tt)) by reflexivity.
  rewrite (call_bind_normal _ _ _ _ _ _ Hl).
  cbn [choicesLoop].
  assert (Hcall : call (choiceStep newId choice ;; ret tt) s2 = call (choiceStep newId choice) s2).
  { unfold call, bind, ret.
    destruct (choiceStep newId choice s2) as [[s3 t3] [[]| |e]]; simpl;
      now rewrite ?app_nil_r. }
  rewrite Hcall. cbv zeta. cbn [fst snd app]. rewrite <- !app_assoc.
  assert (match chunk_usage json with
          | Some u => option_list (setCounters ∘ usageCounters (prompt_tokens u)
                                     <$> completion_tokens u)
          | None => []
          end = option_list (setCounters <$> primaryCounters json)) as ->; [| reflexivity].
  unfold primaryCounters. destruct (chunk_usage json) as [u|]; [| reflexivity].
  cbn. now destruct (completion_tokens u).
Qed.

Lemma warnOnce_exact json s : warnOnce json s = (warnOnceState json s, [], Normal tt).
Proof.
  unfold warnOnce, warnOnceState, bind, get.
  destruct (strTruthy (chunk_warning json)); [destruct (hasWarned s) |]; reflexivity.
Qed.

Lemma parser_console json s :
  console (parser json s).1.1
    = console s
      ++ (if hasWarned s then []
          else match chunk_error json with
               | None => option_list (LogChunkWarning <$> strTruthy (chunk_warning json))
               | Some _ => []
               end)
  ∧ hasWarned (parser json s).1.1
    = hasWarned s
      || match chunk_error json with
         | None => bool_decide (is_Some (strTruthy (chunk_warning json)))
         | Some _ => false
         end.
Proof.
  unfold createOpenAIChatCompletionsChunkParser. rewrite call_effects.
  destruct (reportModel_run json s) as (s1 & t1 & E1 & K1 & _).
  rewrite (bind_normal _ _ _ _ _ _ E1). cbn [fst snd].
  unfold keeps in K1. simpl in K1.
  assert (Hw1 : hasWarned s1 = hasWarned s) by congruence.
  assert (Hc1 : console s1 = console s) by congruence.
  unfold upstreamError. destruct (chunk_error json) as [e|].
  - unfold bind at 1 2, pt, return_, bind. cbn [fst snd].
    rewrite Hw1, Hc1, orb_false_r. destruct (hasWarned s); now rewrite app_nil_r.
  - assert (Hr : @ret Session unit tt s1 = (s1, [], Normal tt)) by reflexivity.
    rewrite (bind_normal _ _ _ _ _ _ Hr). cbn [fst snd].
    rewrite (bind_normal _ _ _ _ _ _ (warnOnce_exact json s1)). cbn [fst snd].
    match goal with |- context [bind ?m ?f ?s0] =>
      destruct (afterWarning_frames json s0) as [K _];
      destruct (bind m f s0) as [[s3 t3] o3]
    end.
    unfold keeps in K. cbn [fst snd] in *.
    assert (Hw3 : hasWarned s3 = hasWarned (warnOnceState json s1)) by congruence.
    assert (Hc3 : console s3 = console (warnOnceState json s1)) by congruence.
    rewrite Hw3, Hc3. unfold warnOnceState. rewrite Hw1.
    destruct (strTruthy (chunk_warning json)) as [w|]; destruct (hasWarned s) eqn:Hw;
      cbn; rewrite ?Hw1, ?Hc1, ?Hw, ?app_nil_r, ?orb_false_r; split; reflexivity.
Qed.

End Gates.

(** X6: the sentinel event (id, object and model all ['']) is skipped
    whatever else it carries: no sink call, no error, and the accumulator,
    the model latch and the id service are left as they were. *)
Theorem sentinel_event_is_skipped render newId json s :
  chunk_error json = None → isAzureSentinel json = true →
  let r := createOpenAIChatCompletionsChunkParser render newId json s in
  r.1.2 = [] ∧ r.2 = Normal tt ∧ accumulator r.1.1 = accumulator s
  ∧ hasBegun r.1.1 = hasBegun s ∧ idsIssued r.1.1 = idsIssued s.
Proof.
  intros He Hs. cbv zeta. rewrite (parser_sentinel render newId json s He Hs). cbn [fst snd].
  destruct (warnOnce_run json s) as (s2 & E2 & K2). rewrite E2. cbn [fst snd].
  unfold keeps in K2. repeat split; congruence.
Qed.

Lemma sentinel_event_is_skipped_witness :
  let json :=
    {| chunk_id := Some ""; chunk_object := Some ""; chunk_model := Some "";
       chunk_error := None; chunk_warning := None;
       chunk_usage := Some {| prompt_tokens := Some 10; completion_tokens := Some 20 |};
       chunk_x_groq := None; chunk_choices := [textChoice "Hi"; textChoice "there"] |} in
  let r := createOpenAIChatCompletionsChunkParser safeErrorString serverSideId json
             weatherSession in
  r.1.2 = [] ∧ r.2 = Normal tt ∧ accumulator r.1.1 = accumulator weatherSession
  ∧ hasBegun r.1.1 = hasBegun weatherSession ∧ idsIssued r.1.1 = idsIssued weatherSession.
Proof.
  cbv zeta. apply (sentinel_event_is_skipped safeErrorString serverSideId); reflexivity.
Defined.

Lemma session_console render newId events s :
  console (processChunks render newId events s).1.1
    = console s ++ (if hasWarned s then []
                    else option_list (LogChunkWarning <$> firstWarning events)).
Proof.
  revert s. induction events as [|json events IH]; intros s.
  - cbn. destruct (hasWarned s); now rewrite app_nil_r.
  - rewrite session_cons. cbn [fst snd]. rewrite IH.
    destruct (parser_console render newId json s) as [-> ->].
    unfold firstWarning. cbn [omap list_omap].
    destruct (hasWarned s); cbn [orb]; [now rewrite !app_nil_r |].
    destruct (chunk_error json); cbn [orb]; [now rewrite app_nil_r |].
    destruct (strTruthy (chunk_warning json)) as [w|]; cbn; [| now rewrite app_nil_r].
    now rewrite <- app_assoc.
Qed.

(** X7: a session logs at most one warning: what it has printed after any
    events is the first non-empty warning among the events that carry no
    error, if there is one, and nothing otherwise. *)
Theorem warning_logged_once render newId (events : list ChunkResponse) :
  console (processChunks render newId events freshSession).1.1
    = option_list (LogChunkWarning <$> firstWarning events).
Proof. apply (session_console render newId events freshSession). Qed.

(** X8: the final stats-only event (a usage block and no choices) ends
    normally after reporting the primary counters, if [completion_tokens] is
    defined: the accumulator is untouched and no other counters, text or
    tool-call call is made. *)
Theorem final_usage_event render newId json s u :
  chunk_error json = None → isAzureSentinel json = false →
  chunk_usage json = Some u → chunk_choices json = [] →
  let r := createOpenAIChatCompletionsChunkParser render newId json s in
  r.2 = Normal tt ∧ accumulator r.1.1 = accumulator s
  ∧ omap countersOf r.1.2
    = option_list (usageCounters (prompt_tokens u) <$> completion_tokens u)
  ∧ Forall (λ c, is_Some (modelNameOf c) ∨ is_Some (countersOf c)) r.1.2.
Proof.
  intros He Hs Hu Hc. cbv zeta.
  destruct (parser_usage_only render newId json s u He Hs Hu Hc) as [Hk Ho].
  split; [exact Ho |]. split; [| split; [exact Hk |]].
  - destruct (parser_gates render newId json s He Hs) as (s1 & t1 & K1 & _ & ->).
    cbv zeta. cbn [fst snd]. rewrite call_effects.
    rewrite (bind_returned _ _ _ _ _ (primaryUsage_only json s1 u Hu Hc)). cbn [fst snd].
    unfold keeps in K1. congruence.
  - destruct (parser_gates render newId json s He Hs) as (s1 & t1 & _ & Q1 & ->).
    cbv zeta. cbn [fst snd]. rewrite call_effects.
    rewrite (bind_returned _ _ _ _ _ (primaryUsage_only json s1 u Hu Hc)). cbn [fst snd].
    apply Forall_app. split; [eapply Forall_impl; [exact Q1 |]; now left |].
    destruct (completion_tokens u); cbn; constructor; [right; simpl; eauto | constructor].
Qed.

Lemma final_usage_event_witness :
  let json := statsChunk (Some {| prompt_tokens := Some 10; completion_tokens := Some 20 |})
                (Some {| groq_prompt_tokens := 3; groq_completion_tokens := 7;
                         groq_completion_time := 0.3 |}) [] in
  let r := createOpenAIChatCompletionsChunkParser safeErrorString serverSideId json
             weatherSession in
  r.2 = Normal tt ∧ accumulator r.1.1 = accumulator weatherSession
  ∧ omap countersOf r.1.2
    = [ {| chatIn := Some 10; chatOut := Some 20; chatOutRate := None;
           chatTimeInner := None |} ]
  ∧ Forall (λ c, is_Some (modelNameOf c) ∨ is_Some (countersOf c)) r.1.2.
Proof.
  cbv zeta.
  apply (final_usage_event safeErrorString serverSideId _ weatherSession
           {| prompt_tokens := Some 10; completion_tokens := Some 20 |}); reflexivity.
Defined.

Lemma choiceStep_rejected render newId json s choice err :
  chunk_error json = None → isAzureSentinel json = false → chunk_choices json = [choice] →
  (∀ s1, choiceStep newId choice s1 = (s1, [], Thrown err)) →
  let r := createOpenAIChatCompletionsChunkParser render newId json s in
  r.2 = Thrown err ∧ accumulator r.1.1 = accumulator s ∧ idsIssued r.1.1 = idsIssued s
  ∧ Forall (λ c, isContentCall c = false) r.1.2.
Proof.
  intros He Hs Hc Hstep. cbv zeta.
  rewrite (parser_singleChoice render newId json s choice He Hs Hc).
  cbv zeta. unfold call. rewrite Hstep. cbn [fst snd]. rewrite app_nil_r.
  pose proof (gateState_keeps json s) as K. unfold keeps in K.
  split; [reflexivity |]. split; [congruence |]. split; [congruence |].
  apply gateCalls_no_content.
Qed.

(** X9: an event whose one choice has an index that is defined and not [0]
    raises "expected completion index 0", whatever the choice carries: the
    accumulator is untouched and no text or tool-call call is made. *)
Theorem choice_index_must_be_zero render newId json s choice i :
  chunk_error json = None → isAzureSentinel json = false → chunk_choices json = [choice] →
  choice_index choice = Some i → i ≠ 0 →
  let r := createOpenAIChatCompletionsChunkParser render newId json s in
  r.2 = Thrown (ExpectedCompletionIndex0 i) ∧ accumulator r.1.1 = accumulator s
  ∧ Forall (λ c, isContentCall c = false) r.1.2.
Proof.
  intros He Hs Hc Hi Hne.
  destruct (choiceStep_rejected render newId json s choice (ExpectedCompletionIndex0 i)
              He Hs Hc) as (Ho & Ha & _ & Hq); [| now auto].
  intros s1. unfold choiceStep, badChoiceIndex. rewrite Hi, decide_False by exact Hne.
  reflexivity.
Qed.

Lemma choice_index_must_be_zero_witness :
  let choice := {| choice_index := Some 1;
                   choice_delta := Some {| delta_content := ContentString "Hi";
                                           delta_tool_calls := None |};
                   choice_finish_reason := None |} in
  let r := createOpenAIChatCompletionsChunkParser safeErrorString serverSideId
             (plainChunk (Some "m1") [choice]) freshSession in
  r.2 = Thrown (ExpectedCompletionIndex0 1) ∧ accumulator r.1.1 = accumulator freshSession
  ∧ Forall (λ c, isContentCall c = false) r.1.2.
Proof.
  cbv zeta.
  eapply (choice_index_must_be_zero safeErrorString serverSideId); try reflexivity.
  discriminate.
Defined.

(** X10: an event whose one choice has an acceptable index and no delta raises
    "server response missing content" with the choice's finish reason: the
    accumulator is untouched and no text or tool-call call is made. *)
Theorem choice_delta_must_be_present render newId json s choice :
  chunk_error json = None → isAzureSentinel json = false → chunk_choices json = [choice] →
  badChoiceIndex (choice_index choice) = None → choice_delta choice = None →
  let r := createOpenAIChatCompletionsChunkParser render newId json s in
  r.2 = Thrown (MissingContent (choice_finish_reason choice))
  ∧ accumulator r.1.1 = accumulator s
  ∧ Forall (λ c, isContentCall c = false) r.1.2.
Proof.
  intros He Hs Hc Hi Hd.
  destruct (choiceStep_rejected render newId json s choice
              (MissingContent (choice_finish_reason choice)) He Hs Hc)
    as (Ho & Ha & _ & Hq); [| now auto].
  intros s1. unfold choiceStep. rewrite Hi, Hd. reflexivity.
Qed.

Lemma choice_delta_must_be_present_witness :
  let choice := {| choice_index := None; choice_delta := None;
                   choice_finish_reason := Some "length" |} in
  let r := createOpenAIChatCompletionsChunkParser safeErrorString serverSideId
             (plainChunk None [choice]) weatherSession in
  r.2 = Thrown (MissingContent (Some "length"))
  ∧ accumulator r.1.1 = accumulator weatherSession
  ∧ Forall (λ c, isContentCall c = false) r.1.2.
Proof.
  cbv zeta.
  apply (choice_delta_must_be_present safeErrorString serverSideId _ weatherSession
           {| choice_index := None; choice_delta := None;
              choice_finish_reason := Some "length" |}); reflexivity.
Defined.

(** ** Tool-call entries: type and index *)

(** X11: when the loop reaches a tool-call entry whose type is defined and is
    not ['function'], the parser raises "unexpected tool_call type", and the
    state and the sink calls of the event are those of the event cut off
    before that entry. *)
Theorem tool_call_type_must_be_function render newId json s choice delta before e after t :
  dataChunk json choice delta → (∀ t, delta_content delta ≠ ContentOther t) →
  delta_tool_calls delta = Some (before ++ e :: after) →
  Forall (updateEntry (accumulator s)) before →
  dtc_type e = Some t → t ≠ "function" →
  let r := createOpenAIChatCompletionsChunkParser render newId json s in
  let r0 := createOpenAIChatCompletionsChunkParser render newId
              (withToolCalls before json) s in
  r.2 = Thrown (UnexpectedToolCallType t) ∧ r.1.1 = r0.1.1 ∧ r.1.2 = r0.1.2.
Proof.
  intros Hd Hc Hl Hb Ht Hne. cbv zeta.
  assert (Hl' : default [] (delta_tool_calls delta) = before ++ e :: after) by now rewrite Hl.
  destruct (parser_toolCallsChunk render newId json s choice delta before (e :: after)
              Hd Hc Hl' Hb) as (s' & t' & -> & _ & _ & _ & _ & ->).
  assert (E : toolCallStep newId e s' = (s', [], Thrown (UnexpectedToolCallType t))).
  { unfold toolCallStep, badToolCallType. rewrite Ht, decide_False by exact Hne.
    reflexivity. }
  cbv zeta. unfold call. cbn [toolCallsLoop].
  rewrite (bind_thrown _ _ _ _ _ _ E). cbn [fst snd].
  now rewrite app_nil_r.
Qed.

Lemma tool_call_type_must_be_function_witness :
  let e := {| dtc_index := Some 0; dtc_id := None; dtc_type := Some "retrieval";
              dtc_function := {| fn_name := None; fn_arguments := Some ":Oslo}" |} |} in
  let json := plainChunk None
                [toolCallsChoice [deltaToolCallOf 0 None None (Some "{city"); e]] in
  createOpenAIChatCompletionsChunkParser safeErrorString serverSideId json weatherSession
  = ({| hasBegun := false; hasWarned := false;
        accumulator :=
          {| content := None;
             tool_calls := <[0 := {| tc_id := "tc1"; tc_name := "get_weather";
                                     tc_arguments := "{city" |}]> ∅;
             tool_calls_length := 1 |};
        idsIssued := 0; console := [] |},
     [appendFunctionToolCallArgsIStr "tc1" "{city"],
     Thrown (UnexpectedToolCallType "retrieval"))
  ∧ (createOpenAIChatCompletionsChunkParser safeErrorString serverSideId json
       weatherSession).2 = Thrown (UnexpectedToolCallType "retrieval").
Proof.
  cbv zeta. split; [vm_compute; reflexivity |].
  refine (proj1
    (tool_call_type_must_be_function safeErrorString serverSideId _ weatherSession
       (toolCallsChoice _) (toolCallsDelta _)
       [deltaToolCallOf 0 None None (Some "{city")]
       {| dtc_index := Some 0; dtc_id := None; dtc_type := Some "retrieval";
          dtc_function := {| fn_name := None; fn_arguments := Some ":Oslo}" |} |}
       [] "retrieval" _ _ _ _ _ _)).
  - repeat split; reflexivity.
  - intros t. discriminate.
  - reflexivity.
  - constructor; [| constructor].
    split; [reflexivity |].
    exists {| tc_id := "tc1"; tc_name := "get_weather"; tc_arguments := "" |}.
    split; [reflexivity |]. split; [intros id H; discriminate H | reflexivity].
  - reflexivity.
  - discriminate.
Defined.

Lemma arrayInvariant_fresh_slot a :
  arrayInvariant a → tool_calls_length a < 2 ^ 32 - 1 →
  tool_calls a !! tool_calls_length a = None.
Proof.
  intros [Hb Hk] Hlt. destruct (tool_calls a !! tool_calls_length a) as [tc|] eqn:Hl;
    [| reflexivity].
  assert (isArrayIndex (tool_calls_length a) = true) as Hi.
  { unfold isArrayIndex. apply andb_true_iff. split; [apply Z.leb_le | apply Z.ltb_lt]; lia. }
  specialize (Hk _ (ex_intro _ tc Hl) Hi). lia.
Qed.

(** X12: when the loop reaches a tool-call entry that has no index, the array
    being a JavaScript array with room left, the entry always creates a tool
    call, at position [length]: it is stored there, [length] grows by one,
    and the event ends normally with the [startFunctionToolCall] call. *)
Theorem tool_call_without_index_is_appended
    render newId json s choice delta before e after :
  dataChunk json choice delta → (∀ t, delta_content delta ≠ ContentOther t) →
  delta_tool_calls delta = Some (before ++ e :: after) →
  Forall (updateEntry (accumulator s)) before →
  badToolCallType (dtc_type e) = None → dtc_index e = None →
  arrayInvariant (accumulator s) → tool_calls_length (accumulator s) < 2 ^ 32 - 1 →
  let r := createOpenAIChatCompletionsChunkParser render newId json s in
  let created :=
    {| tc_id := default (newId "aix-tool-call-id" (idsIssued s)) (strTruthy (dtc_id e));
       tc_name := strOr (fn_name (dtc_function e)) "";
       tc_arguments := strOr (fn_arguments (dtc_function e)) "" |} in
  r.2 = Normal tt
  ∧ tool_calls (accumulator r.1.1) !! tool_calls_length (accumulator s) = Some created
  ∧ tool_calls_length (accumulator r.1.1) = tool_calls_length (accumulator s) + 1
  ∧ last r.1.2 = Some (startFunctionToolCall (tc_id created) (tc_name created) incr_str
                         (tc_arguments created)).
Proof.
  intros Hd Hc Hl Hb Ht Hi Hinv Hroom. cbv zeta.
  assert (Hl' : default [] (delta_tool_calls delta) = before ++ e :: after) by now rewrite Hl.
  assert (Hr : resolveIndex (accumulator s) e = tool_calls_length (accumulator s))
    by (unfold resolveIndex; now rewrite Hi).
  assert (Hn : tool_calls (accumulator s) !! resolveIndex (accumulator s) e = None)
    by (rewrite Hr; now apply arrayInvariant_fresh_slot).
  destruct (parser_creation render newId json s choice delta before e after
              Hd Hc Hl' Hb Ht Hn) as (Ho & _ & Ha & Hcalls).
  destruct (parser_toolCallsChunk render newId json s choice delta before (e :: after)
              Hd Hc Hl' Hb) as (s' & t' & E0 & [Hlen _] & _).
  rewrite E0 in Ha, Hcalls. cbn [fst snd] in Ha, Hcalls. rewrite Hr in Ha.
  split; [exact Ho |]. rewrite Ha, Hcalls. unfold arrayStore.
  cbn [tool_calls tool_calls_length].
  split; [apply lookup_insert_eq |]. split; [| apply last_snoc].
  assert (isArrayIndex (tool_calls_length (accumulator s)) = true) as ->.
  { destruct Hinv as [Hb0 _]. unfold isArrayIndex. apply andb_true_iff.
    split; [apply Z.leb_le | apply Z.ltb_lt]; lia. }
  lia.
Qed.

Lemma tool_call_without_index_is_appended_witness :
  let e := {| dtc_index := None; dtc_id := Some "tc2"; dtc_type := Some "function";
              dtc_function := {| fn_name := Some "get_time"; fn_arguments := None |} |} in
  let r := createOpenAIChatCompletionsChunkParser safeErrorString serverSideId
             (plainChunk None [toolCallsChoice [e]]) weatherSession in
  r.2 = Normal tt
  ∧ tool_calls (accumulator r.1.1) !! 1
    = Some {| tc_id := "tc2"; tc_name := "get_time"; tc_arguments := "" |}
  ∧ tool_calls_length (accumulator r.1.1) = 2
  ∧ last r.1.2 = Some (startFunctionToolCall "tc2" "get_time" incr_str "").
Proof.
  cbv zeta.
  refine (tool_call_without_index_is_appended safeErrorString serverSideId _ weatherSession
            (toolCallsChoice _) (toolCallsDelta _) []
            {| dtc_index := None; dtc_id := Some "tc2"; dtc_type := Some "function";
               dtc_function := {| fn_name := Some "get_time"; fn_arguments := None |} |}
            [] _ _ _ _ _ _ _ _).
  - repeat split; reflexivity.
  - intros t. discriminate.
  - reflexivity.
  - constructor.
  - reflexivity.
  - reflexivity.
  - apply (session_tracks safeErrorString serverSideId _ arrayInvariant_actions
             [weatherStart] freshSession).
    split; [cbn; lia |]. intros i [x Hx]. cbn in Hx. rewrite lookup_empty in Hx.
    discriminate Hx.
  - reflexivity.
Defined.

(** ** Terminating issues *)

Lemma parser_issues render newId json s :
  omap issueOf (createOpenAIChatCompletionsChunkParser render newId json s).1.2
  = option_list ((λ e, strOr (render e) "unknown.") <$> chunk_error json).
Proof.
  unfold createOpenAIChatCompletionsChunkParser. rewrite call_effects.
  destruct (reportModel_run json s) as (s1 & t1 & E1 & _ & Q1).
  rewrite (bind_normal _ _ _ _ _ _ E1). cbn [fst snd]. rewrite omap_app.
  assert (omap issueOf t1 = []) as ->.
  { apply omap_none_forall. eapply Forall_impl; [exact Q1 |]. now intros [] [? ?]. }
  unfold upstreamError. destruct (chunk_error json) as [e|]; [reflexivity |].
  assert (Hr : @ret Session unit tt s1 = (s1, [], Normal tt)) by reflexivity.
  rewrite (bind_normal _ _ _ _ _ _ Hr). cbn [fst snd].
  rewrite (bind_normal _ _ _ _ _ _ (warnOnce_exact json s1)). cbn [fst snd app].
  match goal with |- context [bind ?m ?f ?s0] =>
    destruct (afterWarning_frames newId json s0) as [_ Q]
  end.
  apply omap_none_forall. eapply Forall_impl; [exact Q |]. now intros c [_ ?].
Qed.

(** X13: over any events, the terminating issues sent to the sink are, one
    for one and in order, the events that carry an error, each with the
    rendering of its error, or ['unknown.'] when that is empty. *)
Theorem issues_match_error_events render newId (events : list ChunkResponse) (s : Session) :
  omap issueOf (processChunks render newId events s).1.2
  = omap (λ json, (λ e, strOr (render e) "unknown.") <$> chunk_error json) events.
Proof.
  revert s. induction events as [|json events IH]; intros s; [reflexivity |].
  rewrite session_cons. cbn [fst snd]. rewrite omap_app, IH, parser_issues.
  cbn [omap list_omap]. now destruct (chunk_error json).
Qed.

(** ** The non-streaming parser *)

Lemma parserNS_prelude json out :
  createOpenAIChatCompletionsParserNS json out =
    let r := call (when (negb (bool_decide (length (response_choices json) = 1%nat)))
                     (throw (ExpectedOneCompletion (length (response_choices json)))) ;;
                   nsChoicesLoop (response_choices json)) (out ++ nsLogs json) in
    (r.1.1, nsReports json ++ r.1.2, r.2).
Proof.
  unfold createOpenAIChatCompletionsParserNS, nsLogs, nsReports.
  set (rest := bind (when _ _) _). clearbody rest.
  destruct (response_error json) as [e|], (strTruthy (response_warning json)) as [w|],
    (strTruthy (response_model json)) as [m|], (response_usage json) as [u|];
    unfold call, bind, modify, pt, ret; simpl;
    rewrite <- ?app_assoc, ?app_nil_r; simpl;
    match goal with |- context [rest ?s0] => destruct (rest s0) as [[s1 t1] [[]| |err]] end;
    reflexivity.
Qed.

Lemma nsToolCallsLoop_frames tcs :
  frames (keeps id) (λ c, is_Some (toolPartOf c) ∧ argsAppendOf c = None)
    (nsToolCallsLoop tcs).
Proof.
  induction tcs as [|tc tcs IH]; simpl; [frames_auto |].
  apply frames_bind; [apply _ | | intros _; exact IH].
  unfold nsToolCallStep. frames_auto; simpl; eauto.
Qed.

Lemma nsChoicesLoop_frames choices :
  frames (keeps id) (λ c, modelNameOf c = None ∧ countersOf c = None
                          ∧ issueOf c = None ∧ argsAppendOf c = None)
    (nsChoicesLoop choices).
Proof.
  induction choices as [|choice choices IH]; simpl; [frames_auto |].
  apply frames_bind; [apply _ | | intros _; exact IH].
  unfold nsChoiceStep. frames_auto; simpl; auto.
  eapply frames_weaken; [| | apply nsToolCallsLoop_frames]; [trivial |].
  intros [] [[? ?] ?]; simpl in *; auto; discriminate.
Qed.

Lemma nsReports_models json :
  omap modelNameOf (nsReports json) = option_list (strTruthy (response_model json)).
Proof.
  unfold nsReports.
  now destruct (strTruthy (response_model json)), (response_usage json).
Qed.

Lemma nsReports_counters json :
  omap countersOf (nsReports json)
  = option_list
      ((λ usage, {| chatIn := Some (ns_prompt_tokens usage);
                    chatOut := Some (ns_completion_tokens usage);
                    chatOutRate := None; chatTimeInner := None |})
         <$> response_usage json).
Proof.
  unfold nsReports.
  now destruct (strTruthy (response_model json)), (response_usage json).
Qed.

(** X15: whatever the response, also one that then raises, the non-streaming
    parser prints the embedded error and warning instead of reporting a
    terminating issue, reports the model when it is non-empty, and reports
    the usage block's token counts as they are (no [-1] for a zero prompt
    count); it never sends an argument fragment. *)
Theorem nonstreaming_reports_first (json : Response) (out : list LogEntry) :
  let r := createOpenAIChatCompletionsParserNS json out in
  r.1.1 = out ++ option_list (LogNSError <$> response_error json)
              ++ option_list (LogNSWarning <$> strTruthy (response_warning json))
  ∧ omap modelNameOf r.1.2 = option_list (strTruthy (response_model json))
  ∧ omap countersOf r.1.2
    = option_list
        ((λ usage, {| chatIn := Some (ns_prompt_tokens usage);
                      chatOut := Some (ns_completion_tokens usage);
                      chatOutRate := None; chatTimeInner := None |})
           <$> response_usage json)
  ∧ Forall (λ c, issueOf c = None ∧ argsAppendOf c = None) r.1.2.
Proof.
  cbv zeta. rewrite parserNS_prelude. cbv zeta. cbn [fst snd]. rewrite call_effects.
  match goal with |- context [bind ?m ?f ?s0] =>
    assert (Hf : frames (keeps id)
                   (λ c, modelNameOf c = None ∧ countersOf c = None
                         ∧ issueOf c = None ∧ argsAppendOf c = None) (bind m f));
    [| destruct (Hf s0) as [K Q]; destruct (bind m f s0) as [[s1 t1] o1] ]
  end.
  { apply frames_bind; [apply _ | frames_auto | intros _; apply nsChoicesLoop_frames]. }
  cbn [fst snd] in *. unfold keeps, id in K. subst s1.
  split; [reflexivity |]. rewrite !omap_app, nsReports_models, nsReports_counters.
  rewrite (omap_none_forall modelNameOf t1), (omap_none_forall countersOf t1), !app_nil_r.
  - split; [reflexivity |]. split; [reflexivity |]. apply Forall_app. split.
    + unfold nsReports. destruct (strTruthy (response_model json)), (response_usage json);
        repeat constructor.
    + eapply Forall_impl; [exact Q |]. now intros c (_ & _ & ? & ?).
  - eapply Forall_impl; [exact Q |]. now intros c (_ & ? & _).
  - eapply Forall_impl; [exact Q |]. now intros c (? & _).
Qed.

Lemma nsToolCallsLoop_accepted good rest s :
  Forall (λ tc, badToolCallType (nstc_type tc) = None) good →
  nsToolCallsLoop (good ++ rest) s =
    ((nsToolCallsLoop rest s).1.1,
     (good ≫= nsToolCallCalls) ++ (nsToolCallsLoop rest s).1.2,
     (nsToolCallsLoop rest s).2).
Proof.
  induction 1 as [|tc good Htc _ IH].
  - cbn. now destruct (nsToolCallsLoop rest s) as [[? ?] ?].
  - rewrite <- app_comm_cons. cbn [nsToolCallsLoop].
    assert (E : nsToolCallStep tc s = (s, nsToolCallCalls tc, Normal tt)).
    { unfold nsToolCallStep. now rewrite Htc. }
    rewrite (bind_normal _ _ _ _ _ _ E), IH. cbn [fst snd].
    change ((tc :: good) ≫= nsToolCallCalls)
      with (nsToolCallCalls tc ++ (good ≫= nsToolCallCalls)).
    now rewrite app_assoc.
Qed.

Lemma nsToolCallsLoop_all tcs s :
  Forall (λ tc, badToolCallType (nstc_type tc) = None) tcs →
  nsToolCallsLoop tcs s = (s, tcs ≫= nsToolCallCalls, Normal tt).
Proof.
  intros Hg. rewrite <- (app_nil_r tcs) at 1.
  rewrite (nsToolCallsLoop_accepted tcs [] s Hg). cbn. now rewrite app_nil_r.
Qed.

Lemma nsToolCallsLoop_rejected tc rest s t :
  badToolCallType (nstc_type tc) = Some t →
  nsToolCallsLoop (tc :: rest) s = (s, [], Thrown (UnexpectedToolCallType t)).
Proof. intros Ht. cbn [nsToolCallsLoop]. unfold nsToolCallStep. now rewrite Ht. Qed.

Lemma parserNS_message json out choice message :
  messageResponse json choice message → (∀ t, message_content message ≠ ContentOther t) →
  createOpenAIChatCompletionsParserNS json out =
    let r := call (nsToolCallsLoop (default [] (message_tool_calls message)))
               (out ++ nsLogs json) in
    (r.1.1, nsReports json ++ (appendText <$> nsTexts (message_content message)) ++ r.1.2,
     r.2).
Proof.
  intros (Hc & Hi & Hm) Hk. rewrite parserNS_prelude, Hc. cbv zeta.
  change (negb (bool_decide (length [choice] = 1%nat))) with false.
  cbn [when nsChoicesLoop].
  unfold nsChoiceStep. rewrite Hi, Hm, decide_True by reflexivity.
  set (loop := nsToolCallsLoop _). clearbody loop.
  destruct (message_content message) as [| |text|t]; [| | | now destruct (Hk t)];
    unfold nsTexts; try destruct (decide (text = "")) as [Heq | Hne];
    try rewrite (bool_decide_eq_false_2 (text ≠ "")) by (intros H; now apply H);
    try rewrite (bool_decide_eq_true_2 (text ≠ "")) by exact Hne;
    unfold call, bind, when, ret, pt; cbn [fst snd];
    destruct (loop (out ++ nsLogs json)) as [[s1 t1] [[]| |err]]; cbn;
    rewrite ?app_nil_r; reflexivity.
Qed.

Lemma omap_toolPart_reports json : omap toolPartOf (nsReports json) = [].
Proof.
  unfold nsReports. now destruct (strTruthy (response_model json)), (response_usage json).
Qed.

Lemma omap_text_reports json : omap textOf (nsReports json) = [].
Proof.
  unfold nsReports. now destruct (strTruthy (response_model json)), (response_usage json).
Qed.

Lemma omap_toolPart_texts (l : list string) : omap toolPartOf (appendText <$> l) = [].
Proof. induction l as [|x l IH]; [reflexivity | exact IH]. Qed.

Lemma omap_text_texts (l : list string) : omap textOf (appendText <$> l) = l.
Proof. induction l as [|x l IH]; [reflexivity |]. cbn. now f_equal. Qed.

Lemma omap_toolPart_calls (l : list NSToolCall) :
  omap toolPartOf (l ≫= nsToolCallCalls) = l ≫= nsToolCallCalls.
Proof. induction l as [|x l IH]; [reflexivity |]. cbn. now do 2 f_equal. Qed.

Lemma omap_text_calls (l : list NSToolCall) : omap textOf (l ≫= nsToolCallCalls) = [].
Proof. induction l as [|x l IH]; [reflexivity | exact IH]. Qed.

(** X16: for a response with one choice of index 0 whose message has
    well-typed content and tool calls of an accepted type, the non-streaming
    parser ends normally and its sink calls are, in this order: the model
    name and the counters, if any; the text as one fragment, and only when it
    is non-empty; then, for each tool call in order, its start with its
    complete id, name and arguments, immediately followed by its closing.
    Nothing else is sent, and only the error and the warning are logged. *)
Theorem nonstreaming_message json out choice message :
  messageResponse json choice message → (∀ t, message_content message ≠ ContentOther t) →
  Forall (λ tc, badToolCallType (nstc_type tc) = None) (default [] (message_tool_calls message)) →
  createOpenAIChatCompletionsParserNS json out
  = (out ++ nsLogs json,
     nsReports json
       ++ (appendText <$> nsTexts (message_content message))
       ++ (default [] (message_tool_calls message) ≫= nsToolCallCalls),
     Normal tt).
Proof.
  intros Hm Hk Hg. rewrite (parserNS_message json out choice message Hm Hk).
  cbv zeta. unfold call. now rewrite (nsToolCallsLoop_all _ _ Hg).
Qed.

Lemma nonstreaming_message_witness :
  let toolCall id name args :=
    {| nstc_id := id; nstc_type := None;
       nstc_function := {| nsfn_name := name; nsfn_arguments := args |} |} in
  let message :=
    {| message_content := ContentString "Let me check.";
       message_tool_calls := Some [toolCall "a" "get_weather" "{}"; toolCall "b" "get_time" "{}"] |} in
  let json :=
    {| response_model := Some "m1";
       response_error := Some {| error_message := Some "ignored" |};
       response_warning := None;
       response_usage := Some {| ns_prompt_tokens := 0; ns_completion_tokens := 5 |};
       response_choices := [ {| nschoice_index := 0; nschoice_message := Some message;
                                nschoice_finish_reason := None |} ] |} in
  createOpenAIChatCompletionsParserNS json []
  = ([LogNSError {| error_message := Some "ignored" |}],
     [setModelName "m1";
      setCounters {| chatIn := Some 0; chatOut := Some 5; chatOutRate := None;
                     chatTimeInner := None |};
      appendText "Let me check.";
      startFunctionToolCall "a" "get_weather" incr_str "{}"; endMessagePart;
      startFunctionToolCall "b" "get_time" incr_str "{}"; endMessagePart],
     Normal tt).
Proof.
  cbv zeta.
  refine (nonstreaming_message _ [] _
    {| message_content := ContentString "Let me check.";
       message_tool_calls :=
         Some [ {| nstc_id := "a"; nstc_type := None;
                   nstc_function := {| nsfn_name := "get_weather"; nsfn_arguments := "{}" |} |};
                {| nstc_id := "b"; nstc_type := None;
                   nstc_function := {| nsfn_name := "get_time"; nsfn_arguments := "{}" |} |} ] |}
    _ _ _).
  - repeat split; reflexivity.
  - intros t. discriminate.
  - repeat constructor.
Defined.

(** X17: when the tool calls of the message are of an accepted type up to one
    whose type is defined and not ['function'], the non-streaming parser
    raises "unexpected tool_call type" there: the tool calls before it have
    been started and closed, that one and those after it have not. *)
Theorem nonstreaming_tool_call_type json out choice message good bad rest t :
  messageResponse json choice message → (∀ t, message_content message ≠ ContentOther t) →
  message_tool_calls message = Some (good ++ bad :: rest) →
  Forall (λ tc, badToolCallType (nstc_type tc) = None) good →
  badToolCallType (nstc_type bad) = Some t →
  let r := createOpenAIChatCompletionsParserNS json out in
  r.2 = Thrown (UnexpectedToolCallType t)
  ∧ omap textOf r.1.2 = nsTexts (message_content message)
  ∧ omap toolPartOf r.1.2 = good ≫= nsToolCallCalls.
Proof.
  intros Hm Hk Hl Hg Hb. cbv zeta. rewrite (parserNS_message json out choice message Hm Hk).
  cbv zeta. unfold call. rewrite Hl. cbn [default from_option id].
  change (id (good ++ bad :: rest)) with (good ++ bad :: rest).
  rewrite (nsToolCallsLoop_accepted _ _ _ Hg), (nsToolCallsLoop_rejected bad rest _ t Hb).
  cbn [fst snd].
  rewrite !omap_app, omap_toolPart_reports, omap_text_reports, omap_toolPart_texts,
    omap_text_texts, omap_toolPart_calls, omap_text_calls.
  cbn [app omap list_omap]. now rewrite !app_nil_r.
Qed.

Lemma nonstreaming_tool_call_type_witness :
  let message :=
    {| message_content := ContentString "Hi";
       message_tool_calls :=
         Some [ {| nstc_id := "a"; nstc_type := Some "function";
                   nstc_function := {| nsfn_name := "get_weather"; nsfn_arguments := "{}" |} |};
                {| nstc_id := "b"; nstc_type := Some "retrieval";
                   nstc_function := {| nsfn_name := "get_time"; nsfn_arguments := "{}" |} |} ] |} in
  let json := plainResponse [ {| nschoice_index := 0; nschoice_message := Some message;
                                 nschoice_finish_reason := None |} ] in
  createOpenAIChatCompletionsParserNS json []
  = ([], [appendText "Hi"; startFunctionToolCall "a" "get_weather" incr_str "{}";
          endMessagePart],
     Thrown (UnexpectedToolCallType "retrieval"))
  ∧ (createOpenAIChatCompletionsParserNS json []).2
    = Thrown (UnexpectedToolCallType "retrieval").
Proof.
  cbv zeta. split; [reflexivity |].
  refine (proj1 (nonstreaming_tool_call_type _ [] _
    {| message_content := ContentString "Hi";
       message_tool_calls :=
         Some [ {| nstc_id := "a"; nstc_type := Some "function";
                   nstc_function := {| nsfn_name := "get_weather"; nsfn_arguments := "{}" |} |};
                {| nstc_id := "b"; nstc_type := Some "retrieval";
                   nstc_function := {| nsfn_name := "get_time"; nsfn_arguments := "{}" |} |} ] |}
    [ {| nstc_id := "a"; nstc_type := Some "function";
         nstc_function := {| nsfn_name := "get_weather"; nsfn_arguments := "{}" |} |} ]
    {| nstc_id := "b"; nstc_type := Some "retrieval";
       nstc_function := {| nsfn_name := "get_time"; nsfn_arguments := "{}" |} |}
    [] "retrieval" _ _ _ _ _)).
  - repeat split; reflexivity.
  - intros t. discriminate.
  - reflexivity.
  - repeat constructor.
  - reflexivity.
Defined.

(** X18: a non-streaming response with one choice raises before any text or
    tool call is forwarded when the choice's index is not [0] ("expected
    completion index 0", with that index) or when the index is [0] and the
    message is missing ("server response missing content", with the finish
    reason). *)
Theorem nonstreaming_choice_validation json out choice :
  response_choices json = [choice] →
  let r := createOpenAIChatCompletionsParserNS json out in
  (nschoice_index choice ≠ 0 →
     r.2 = Thrown (ExpectedCompletionIndex0 (nschoice_index choice))
     ∧ omap textOf r.1.2 = [] ∧ omap toolPartOf r.1.2 = [])
  ∧ (nschoice_index choice = 0 → nschoice_message choice = None →
       r.2 = Thrown (MissingContent (nschoice_finish_reason choice))
       ∧ omap textOf r.1.2 = [] ∧ omap toolPartOf r.1.2 = []).
Proof.
  intros Hc. cbv zeta. rewrite parserNS_prelude, Hc. cbv zeta.
  change (negb (bool_decide (length [choice] = 1%nat))) with false.
  cbn [when nsChoicesLoop]. unfold nsChoiceStep.
  split.
  - intros Hi. rewrite decide_False by exact Hi.
    unfold call, bind, ret, throw. cbn [fst snd].
    now rewrite !omap_app, omap_text_reports, omap_toolPart_reports.
  - intros Hi Hm. rewrite Hi, Hm, decide_True by reflexivity.
    unfold call, bind, ret, throw. cbn [fst snd].
    now rewrite !omap_app, omap_text_reports, omap_toolPart_reports.
Qed.

Lemma nonstreaming_choice_validation_witness :
  let wrongIndex := {| nschoice_index := 1;
                       nschoice_message :=
                         Some {| message_content := ContentString "Hi";
                                 message_tool_calls := None |};
                       nschoice_finish_reason := None |} in
  let noMessage := {| nschoice_index := 0; nschoice_message := None;
                      nschoice_finish_reason := Some "stop" |} in
  (createOpenAIChatCompletionsParserNS (plainResponse [wrongIndex]) []).2
  = Thrown (ExpectedCompletionIndex0 1)
  ∧ (createOpenAIChatCompletionsParserNS (plainResponse [noMessage]) []).2
    = Thrown (MissingContent (Some "stop")).
Proof.
  intros wrongIndex noMessage. split.
  - refine (proj1 (proj1 (nonstreaming_choice_validation (plainResponse [wrongIndex]) []
                            wrongIndex eq_refl) _)).
    discriminate.
  - exact (proj1 (proj2 (nonstreaming_choice_validation (plainResponse [noMessage]) []
                           noMessage eq_refl) eq_refl eq_refl)).
Defined.

(** ** What the streaming parser never sends *)

#[local] Instance neverCloses_composes :
  Composes (λ (_ : Session) t (_ : Session), Forall (λ c, c ≠ endMessagePart) t).
Proof. split; [constructor | intros; now apply Forall_app]. Qed.

Lemma neverCloses_actions :
  RespectsActions (λ (_ : Session) t (_ : Session), Forall (λ c, c ≠ endMessagePart) t).
Proof. split; intros; repeat constructor; discriminate. Qed.

(** X19: whatever the events, the streaming parser never closes a message
    part: that call belongs to the non-streaming parser alone. *)
Theorem streaming_never_closes_parts render newId (events : list ChunkResponse) (s : Session) :
  Forall (λ c, c ≠ endMessagePart) (processChunks render newId events s).1.2.
Proof.
  apply (session_tracks render newId
           (λ (_ : Session) t (_ : Session), Forall (λ c, c ≠ endMessagePart) t)
           neverCloses_actions).
Qed.
